(** * Verification of the company scoring engine ([src/lib/scoringUtils.ts])

    The development embeds [calculateScores] and the JavaScript [Number]
    arithmetic it runs on, and states the properties of the scoring
    specification over that embedding. *)

From Stdlib Require Import ZArith Lia List Bool String Permutation Sorted.
From Stdlib Require Import Floats.SpecFloat.
From stdpp Require Import gmap strings list fin_maps.

Local Open Scope Z_scope.

(** ** JavaScript numbers

    A JavaScript [number] is an IEEE 754 binary64 value.  Every finite
    binary64 value is an integer multiple of [2^-1074], so a finite number is
    kept as that integer: [Fin n] stands for [n * 2^-1074].  Each arithmetic
    operation returns the exact result rounded to the nearest representable
    value, ties to even (53 significant bits), and overflows to an infinity
    from [2^1024] on.

    The sign of a zero is not tracked.  [calculateScores] never divides by a
    zero (the range width is tested against [1e-9] and the weight total
    against [0] first) and its comparisons do not tell [-0] from [+0]. *)
Module Number.

Inductive number : Type :=
| NaN : number
| Inf (negative : bool) : number
| Fin (n : Z) : number.

Definition scale : Z := 2 ^ 1074.

(** [2^1024] at the scale of [Fin]: the first magnitude that is an infinity. *)
Definition limit : Z := 2 ^ 2098.

(** [rne P D]: the integer nearest to [P / D], ties to the even one
    ([0 <= P], [0 < D]). *)
Definition rne (P D : Z) : Z :=
  let q := P / D in
  match 2 * (P mod D) ?= D with
  | Lt => q
  | Gt => q + 1
  | Eq => if Z.even q then q else q + 1
  end.

(** Number of low bits that a magnitude [P / D] loses to fit 53 bits. *)
Definition shift (P D : Z) : Z := Z.max 0 (Z.log2 (P / D) - 52).

(** [round53 P D]: [P / D] rounded to 53 significant bits. *)
Definition round53 (P D : Z) : Z :=
  let k := shift P D in rne P (D * 2 ^ k) * 2 ^ k.

(** [round P D]: the number nearest to the exact quotient [P / D] of scaled
    integers ([0 < D]). *)
Definition round (P D : Z) : number :=
  let m := round53 (Z.abs P) D in
  if limit <=? m then Inf (P <? 0) else Fin (Z.sgn P * m).

Definition zero : number := Fin 0.
Definition of_Z (z : Z) : number := round (z * scale) 1.

(** A decimal literal [num / den] of the source text. *)
Definition literal (num den : Z) : number := round (num * scale) den.

Definition neg (x : number) : number :=
  match x with
  | NaN => NaN
  | Inf s => Inf (negb s)
  | Fin n => Fin (- n)
  end.

Definition add (x y : number) : number :=
  match x, y with
  | NaN, _ | _, NaN => NaN
  | Inf s, Inf t => if Bool.eqb s t then Inf s else NaN
  | Inf s, Fin _ => Inf s
  | Fin _, Inf t => Inf t
  | Fin a, Fin b => round (a + b) 1
  end.

Definition sub (x y : number) : number := add x (neg y).

Definition mul (x y : number) : number :=
  match x, y with
  | NaN, _ | _, NaN => NaN
  | Inf s, Inf t => Inf (xorb s t)
  | Inf s, Fin b => if b =? 0 then NaN else Inf (xorb s (b <? 0))
  | Fin a, Inf t => if a =? 0 then NaN else Inf (xorb (a <? 0) t)
  | Fin a, Fin b => round (a * b) scale
  end.

Definition div (x y : number) : number :=
  match x, y with
  | NaN, _ | _, NaN => NaN
  | Inf _, Inf _ => NaN
  | Inf s, Fin b => Inf (xorb s (b <? 0))
  | Fin _, Inf _ => zero
  | Fin a, Fin b =>
      if b =? 0 then (if a =? 0 then NaN else Inf (a <? 0))
      else round (Z.sgn b * a * scale) (Z.abs b)
  end.

(** [x < y] and [x <= y]; both are false when an operand is [NaN]. *)
Definition ltb (x y : number) : bool :=
  match x, y with
  | NaN, _ | _, NaN => false
  | Inf s, Inf t => s && negb t
  | Inf s, Fin _ => s
  | Fin _, Inf t => negb t
  | Fin a, Fin b => a <? b
  end.

Definition leb (x y : number) : bool :=
  match x, y with
  | NaN, _ | _, NaN => false
  | Inf s, Inf t => s || negb t
  | Inf s, Fin _ => s
  | Fin _, Inf t => negb t
  | Fin a, Fin b => a <=? b
  end.

Definition gtb (x y : number) : bool := ltb y x.
Definition geb (x y : number) : bool := leb y x.

(** [Math.min] and [Math.max]: [NaN] if an argument is [NaN]. *)
Definition min (x y : number) : number :=
  match x, y with
  | NaN, _ | _, NaN => NaN
  | _, _ => if leb x y then x else y
  end.

Definition max (x y : number) : number :=
  match x, y with
  | NaN, _ | _, NaN => NaN
  | _, _ => if leb y x then x else y
  end.

(** [Math.round]: the nearest integer, halves towards [+Infinity]. *)
Definition Math_round (x : number) : number :=
  match x with
  | Fin n => Fin ((2 * n + scale) / (2 * scale) * scale)
  | _ => x
  end.

(** [Number.isFinite]. *)
Definition isFinite (x : number) : bool :=
  match x with Fin _ => true | _ => false end.

Definition isNaN (x : number) : bool :=
  match x with NaN => true | _ => false end.

(** [representable x]: [x] is a binary64 value, that is, rounding leaves it
    unchanged. *)
Definition representable (x : number) : bool :=
  match x with
  | Fin n => match round n 1 with Fin m => n =? m | _ => false end
  | _ => true
  end.

(** *** Agreement with the Standard Library's binary64 specification *)

Definition of_spec_float (f : spec_float) : number :=
  match f with
  | S754_zero _ => Fin 0
  | S754_infinity s => Inf s
  | S754_nan => NaN
  | S754_finite s m e => Fin (cond_Zopp s (Zpos m) * 2 ^ (e + 1074))
  end.

(** The binary64 value [m * 2^e]. *)
Definition b64 (m e : Z) : spec_float := binary_normalize 53 1024 m e false.

End Number.

Import Number.

#[global] Arguments Number.add : simpl never.
#[global] Arguments Number.sub : simpl never.
#[global] Arguments Number.mul : simpl never.
#[global] Arguments Number.div : simpl never.
#[global] Arguments Number.ltb : simpl never.
#[global] Arguments Number.leb : simpl never.
#[global] Arguments Number.gtb : simpl never.
#[global] Arguments Number.geb : simpl never.
#[global] Arguments Number.round : simpl never.
#[global] Arguments Number.of_Z : simpl never.

(** ** Plain objects

    [tierLevels], [metricConfigs], [fullRanges] and [scoreBreakdown] are plain
    objects, and a plain object inherits from [Object.prototype].  A read
    [o[k]] yields the own property [k] where the object has one; otherwise it
    yields the member [k] of [Object.prototype] where there is one
    ([o["toString"]] is a function), and [undefined] otherwise. *)

(** The text of a built-in function, as [String(f)] gives it.  Engines
    differ in the white space that follows the name; the order of the texts
    of two built-in functions is decided within their names. *)
Definition nativeFunction (name : string) : string :=
  String.append "function " (String.append name "() { [native code] }").

(** The members of [Object.prototype], each with the string that a comparison
    operator turns it into: the text of the function for a method, and
    ["[object Object]"] for the accessor [__proto__], whose value is
    [Object.prototype] itself. *)
Definition objectPrototype : list (string * string) :=
  [("constructor", nativeFunction "Object");
   ("__defineGetter__", nativeFunction "__defineGetter__");
   ("__defineSetter__", nativeFunction "__defineSetter__");
   ("hasOwnProperty", nativeFunction "hasOwnProperty");
   ("__lookupGetter__", nativeFunction "__lookupGetter__");
   ("__lookupSetter__", nativeFunction "__lookupSetter__");
   ("isPrototypeOf", nativeFunction "isPrototypeOf");
   ("propertyIsEnumerable", nativeFunction "propertyIsEnumerable");
   ("toString", nativeFunction "toString");
   ("valueOf", nativeFunction "valueOf");
   ("__proto__", "[object Object]");
   ("toLocaleString", nativeFunction "toLocaleString")].

(** The member of [Object.prototype] named [k], if any, as its string. *)
Definition inherited (k : string) : option string :=
  snd <$> List.find (fun m => String.eqb (fst m) k) objectPrototype.

(** The outcome of a read [o[k]]. *)
Inductive Property (A : Type) : Type :=
| Own (a : A) : Property A
| Inherited (text : string) : Property A
| Undefined : Property A.

Arguments Own {A} a.
Arguments Inherited {A} text.
Arguments Undefined {A}.

(** [o[k]] for a plain object with the own properties [o]. *)
Definition get {A : Type} (o : gmap string A) (k : string) : Property A :=
  match o !! k with
  | Some a => Own a
  | None =>
      match inherited k with
      | Some text => Inherited text
      | None => Undefined
      end
  end.

(** ** Data model ([scoringUtils.ts], lines 7-25, and the imported types) *)

(** The fields of [MetricConfig] that [calculateScores] reads.  The tier is
    kept as the string the record holds, so that a value outside
    [free | medium | premium] can be expressed. *)
Record MetricConfig : Type := mkMetricConfig {
  label : string;
  tier : string;
  nested_path : string;
  higherIsBetter : bool
}.

(** Modelled from the spec: the [Company] type is declared in [lib/types],
    which is not part of the sources at hand.  A company exposes an
    identifier, a display name and numeric fields reachable by a dotted path;
    a path that holds no number (absent, [null], a string) has no entry. *)
Record Company : Type := mkCompany {
  company_id : Z;
  company_name : string;
  company_values : gmap string number
}.

Record ScoreComponent : Type := mkScoreComponent {
  metricLabel : string;
  rawValue : option number;
  normalizedValue : option number;
  weight : number;
  weightedScore : number;
  isIncluded : bool;
  isAccessible : bool;
  error : option string
}.

(** A breakdown object, [Record<string, ScoreComponent>], as the loop builds
    it from [{}]: its own properties, and the component that an assignment to
    the key [__proto__] has made its prototype ([None] while the prototype is
    still [Object.prototype]). *)
Record Breakdown : Type := mkBreakdown {
  ownEntries : gmap string ScoreComponent;
  prototype : option ScoreComponent
}.

Definition emptyBreakdown : Breakdown := mkBreakdown ∅ None.

(** The component that a read [b[k]] yields.  The key [__proto__] reads the
    prototype; every other key reads the own property.  (A read that falls
    through to a member of the prototype yields no component.) *)
#[global] Instance breakdown_lookup : Lookup string ScoreComponent Breakdown :=
  fun k b => if String.eqb k "__proto__" then prototype b else ownEntries b !! k.

(** The assignment [b[k] = c].  For the key [__proto__] it runs the setter
    inherited from [Object.prototype], which replaces the prototype of [b] and
    creates no own property; for every other key it creates or overwrites the
    own property. *)
Definition assign (k : string) (c : ScoreComponent) (b : Breakdown) : Breakdown :=
  if String.eqb k "__proto__" then mkBreakdown (ownEntries b) (Some c)
  else mkBreakdown (<[k := c]> (ownEntries b)) (prototype b).

Record CompanyScore : Type := mkCompanyScore {
  companyId : Z;
  companyName : string;
  score : option number;
  breakdown : Breakdown
}.

(** Modelled from the spec: [getNestedValue] of [lib/utils] (not part of the
    sources at hand) reads the value at a dotted path of a company record. *)
Definition getNestedValue (company : Company) (path : string) : option number :=
  company_values company !! path.

(** Modelled from the spec: [isValidNumber] of [lib/utils] (not part of the
    sources at hand) accepts exactly the finite numbers. *)
Definition isValidNumber (v : option number) : bool :=
  match v with
  | Some x => Number.isFinite x
  | None => false
  end.

(** ** Tier access (lines 38-39 and 66-67) *)

(** The own properties of [tierLevels], [{ free: 0, medium: 1, premium: 2 }]. *)
Definition tierLevels : gmap string Z :=
  <["free" := 0]> (<["medium" := 1]> (<["premium" := 2]> ∅)).

(** What a tier level can be: a number, or a member of [Object.prototype]
    that the read of [tierLevels] has found, kept as its string. *)
Inductive TierLevel : Type :=
| Level (n : Z) : TierLevel
| Member (text : string) : TierLevel.

(** [p ?? d]: only [undefined] gives way to the default. *)
Definition orLevel (p : Property Z) (d : Z) : TierLevel :=
  match p with
  | Own n => Level n
  | Inherited text => Member text
  | Undefined => Level d
  end.

(** [tierLevels[currentUserTier] ?? -1]. *)
Definition userTierLevel (currentUserTier : string) : TierLevel :=
  orLevel (get tierLevels currentUserTier) (-1).

(** [tierLevels[metricConfig.tier] ?? 99]. *)
Definition requiredTierLevel (metricTier : string) : TierLevel :=
  orLevel (get tierLevels metricTier) 99.

(** [a >= b].  Two numbers are compared as numbers.  Two members of
    [Object.prototype] are turned into strings and compared as strings, by
    code units.  A member against a number is turned into [NaN], and the
    comparison is false. *)
Definition geq (a b : TierLevel) : bool :=
  match a, b with
  | Level x, Level y => y <=? x
  | Member s, Member t => String.leb t s
  | _, _ => false
  end.

(** [userTierLevel >= requiredTierLevel]. *)
Definition accessGranted (currentUserTier metricTier : string) : bool :=
  geq (userTierLevel currentUserTier) (requiredTierLevel metricTier).

(** ** Range normalisation (lines 90-104) *)

(** The literal [1e-9]. *)
Definition epsilon : number := Number.literal 1 1000000000.
Definition one : number := Number.of_Z 1.
Definition half : number := Number.literal 5 10.
Definition thousand : number := Number.of_Z 1000.

Definition normalize (raw lo hi : number) (higher : bool) : number :=
  let rangeWidth := Number.sub hi lo in
  let normalized :=
    if Number.gtb rangeWidth epsilon then Number.div (Number.sub raw lo) rangeWidth
    else if Number.geb raw lo then half
    else Number.zero in
  let normalized := Number.max Number.zero (Number.min one normalized) in
  if negb higher then Number.sub one normalized else normalized.

(** ** The scoring loop (lines 41-125) *)

(** The three loop variables of one company: [totalWeightedScore],
    [totalEffectiveWeight] and [scoreBreakdown]. *)
Record Totals : Type := mkTotals {
  totalWeightedScore : number;
  totalEffectiveWeight : number;
  scoreBreakdown : Breakdown
}.

(** [metricConfig?.label || db_column]: an empty label is falsy, and a member
    of [Object.prototype] has no [label]. *)
Definition labelOf (metricConfig : Property MetricConfig) (db_column : string) : string :=
  match metricConfig with
  | Own c => if String.eqb (label c) "" then db_column else label c
  | _ => db_column
  end.

(** The component as it stands when the loop leaves the current metric with
    [continue]: excluded, with an error text. *)
Definition excluded (lbl : string) (raw : option number) (w : number)
    (accessible : bool) (msg : string) : ScoreComponent :=
  mkScoreComponent lbl raw None w Number.zero false accessible (Some msg).

(** [scoreBreakdown[db_column] = component; continue]. *)
Definition record (st : Totals) (db_column : string) (c : ScoreComponent) : Totals :=
  mkTotals (totalWeightedScore st) (totalEffectiveWeight st)
           (assign db_column c (scoreBreakdown st)).

(** The bounds that [range[0]] and [range[1]] read: a member of
    [Object.prototype] has neither, like a missing range. *)
Definition boundsOf (range : Property (number * number)) : option (number * number) :=
  match range with
  | Own r => Some r
  | _ => None
  end.

(** [range && isValidNumber(range[0]) && isValidNumber(range[1])]. *)
Definition validRange (range : option (number * number)) : bool :=
  match range with
  | Some (lo, hi) => Number.isFinite lo && Number.isFinite hi
  | None => false
  end.

(** The error text [`Requires ${metricConfig.tier} tier`]. *)
Definition requiresTier (t : string) : string :=
  String.append "Requires " (String.append t " tier").

(** One iteration of the loop over [Object.entries(weights)] (lines 46-113). *)
Definition scoreMetric (company : Company) (fullRanges : gmap string (number * number))
    (metricConfigs : gmap string MetricConfig) (currentUserTier : string)
    (st : Totals) (entry : string * number) : Totals :=
  let '(db_column, w) := entry in
  if Number.leb w Number.zero then st
  else
    let metricConfig := get metricConfigs db_column in
    let lbl := labelOf metricConfig db_column in
    match metricConfig with
    | Undefined =>
        record st db_column (excluded lbl None w false "Metric config not found")
    | Inherited _ =>
        (* a member of [Object.prototype] is truthy and has no [tier]:
           [metricConfig.tier] is [undefined], the key ["undefined"] *)
        if negb (accessGranted currentUserTier "undefined") then
          record st db_column
            (excluded lbl None w false (requiresTier "undefined"))
        else
          (* not reached: no viewer level is [>= 99] *)
          record st db_column (excluded lbl None w true "Null value")
    | Own cfg =>
        if negb (accessGranted currentUserTier (tier cfg)) then
          record st db_column
            (excluded lbl None w false (requiresTier (tier cfg)))
        else
          let rawValue := getNestedValue company (nested_path cfg) in
          let range := boundsOf (get fullRanges db_column) in
          if negb (isValidNumber rawValue) then
            record st db_column (excluded lbl None w true "Null value")
          else if negb (validRange range) then
            record st db_column
              (excluded lbl rawValue w true "Invalid/Missing range")
          else
            match rawValue, range with
            | Some raw, Some (lo, hi) =>
                let normalized := normalize raw lo hi (higherIsBetter cfg) in
                let weighted := Number.mul normalized w in
                mkTotals
                  (Number.add (totalWeightedScore st) weighted)
                  (Number.add (totalEffectiveWeight st) w)
                  (assign db_column
                     (mkScoreComponent lbl (Some raw) (Some normalized) w
                        weighted true true None)
                     (scoreBreakdown st))
            | _, _ => st (* not reached: both tests above have passed *)
            end
    end.

Definition initialTotals : Totals := mkTotals Number.zero Number.zero emptyBreakdown.

(** Lines 115-117 and 122: the final score from the two totals. *)
Definition finalScore (st : Totals) : option number :=
  if Number.gtb (totalEffectiveWeight st) Number.zero then
    Some (Number.Math_round
            (Number.mul (Number.div (totalWeightedScore st) (totalEffectiveWeight st))
                        thousand))
  else None.

(** The body of the loop over the companies (lines 42-124). *)
Definition scoreCompany (weights : list (string * number))
    (fullRanges : gmap string (number * number))
    (metricConfigs : gmap string MetricConfig) (currentUserTier : string)
    (company : Company) : CompanyScore :=
  let st := fold_left (scoreMetric company fullRanges metricConfigs currentUserTier)
                      weights initialTotals in
  mkCompanyScore (company_id company) (company_name company) (finalScore st)
                 (scoreBreakdown st).

(** ** Ranking (line 127) *)

(** [(b.score ?? -1) - (a.score ?? -1)]. *)
Definition sortKey (r : CompanyScore) : number :=
  default (Number.of_Z (-1)) (score r).

Definition compareScores (a b : CompanyScore) : number :=
  Number.sub (sortKey b) (sortKey a).

(** [Array.prototype.sort] is a stable sort: [a] moves behind [b] only when
    the comparator is positive on [(a, b)].  It is modelled by stable
    insertion. *)
Fixpoint insertBy (cmp : CompanyScore -> CompanyScore -> number)
    (x : CompanyScore) (l : list CompanyScore) : list CompanyScore :=
  match l with
  | [] => [x]
  | y :: l' =>
      if Number.gtb (cmp x y) Number.zero then y :: insertBy cmp x l'
      else x :: y :: l'
  end.

Definition sortBy (cmp : CompanyScore -> CompanyScore -> number)
    (l : list CompanyScore) : list CompanyScore :=
  fold_right (insertBy cmp) [] l.

(** [calculateScores] (lines 30-130).  [weights] is the list
    [Object.entries(weights)], in the order the loop visits it; [fullRanges]
    and [metricConfigs] hold the own properties of the two argument objects,
    which are plain objects. *)
Definition calculateScores (companies : list Company)
    (weights : list (string * number))
    (fullRanges : gmap string (number * number))
    (metricConfigs : gmap string MetricConfig)
    (currentUserTier : string) : list CompanyScore :=
  sortBy compareScores
    (map (scoreCompany weights fullRanges metricConfigs currentUserTier) companies).

(** * Properties *)

(** ** Tier access policy *)

(** The order [free(0) < medium(1) < premium(2)] as the specification words
    it; any other tier has no rank. *)
Definition rank (t : string) : option Z :=
  if String.eqb t "free" then Some 0
  else if String.eqb t "medium" then Some 1
  else if String.eqb t "premium" then Some 2
  else None.

Lemma tierLevels_rank (t : string) : tierLevels !! t = rank t.
Proof.
  unfold tierLevels, rank.
  destruct (String.eqb_spec t "free") as [->|Hf]; [reflexivity|].
  rewrite lookup_insert_ne by congruence.
  destruct (String.eqb_spec t "medium") as [->|Hm]; [reflexivity|].
  rewrite lookup_insert_ne by congruence.
  destruct (String.eqb_spec t "premium") as [->|Hp]; [reflexivity|].
  rewrite lookup_insert_ne by congruence.
  apply lookup_empty.
Qed.

Lemma rank_bounds (t : string) (r : Z) : rank t = Some r -> 0 <= r <= 2.
Proof.
  unfold rank.
  repeat match goal with |- context [String.eqb ?a ?b] => destruct (String.eqb a b) end;
    intros [= <-]; lia.
Qed.

(** The three ranked tiers are not names of members of [Object.prototype]. *)
Lemma rank_not_inherited (t : string) (r : Z) : rank t = Some r -> inherited t = None.
Proof.
  unfold rank.
  destruct (String.eqb_spec t "free") as [->|_]; [reflexivity|].
  destruct (String.eqb_spec t "medium") as [->|_]; [reflexivity|].
  destruct (String.eqb_spec t "premium") as [->|_]; [reflexivity|].
  discriminate.
Qed.

(** The level that a read of [tierLevels] gives, with the default [d]. *)
Definition levelOf (t : string) (d : Z) : TierLevel :=
  match rank t with
  | Some r => Level r
  | None =>
      match inherited t with
      | Some text => Member text
      | None => Level d
      end
  end.

Lemma orLevel_get (t : string) (d : Z) : orLevel (get tierLevels t) d = levelOf t d.
Proof.
  unfold get, levelOf. rewrite tierLevels_rank.
  destruct (rank t); [reflexivity|]. destruct (inherited t); reflexivity.
Qed.

(** Access in full: either both tiers are ranked and the viewer's rank is at
    least the required one, or both tiers name members of [Object.prototype]
    and the string of the viewer's member is not below the other. *)
Lemma accessGranted_spec (viewer required : string) :
  accessGranted viewer required = true <->
    (exists rv rr, rank viewer = Some rv /\ rank required = Some rr /\ rr <= rv)
    \/ (exists sv sr, rank viewer = None /\ rank required = None /\
          inherited viewer = Some sv /\ inherited required = Some sr /\
          String.leb sr sv = true).
Proof.
  unfold accessGranted, userTierLevel, requiredTierLevel.
  rewrite !orLevel_get. unfold levelOf.
  destruct (rank viewer) as [rv|] eqn:Hv, (rank required) as [rr|] eqn:Hr.
  - cbn [geq]. rewrite Z.leb_le. split.
    + intros H. left. exists rv, rr. auto.
    + intros [(a & b & [= <-] & [= <-] & H)|(? & ? & [=] & _)]. exact H.
  - apply rank_bounds in Hv.
    destruct (inherited required) as [sr|]; cbn [geq].
    + split; [discriminate|].
      intros [(? & ? & _ & [=] & _)|(? & ? & [=] & _)].
    + split.
      * rewrite Z.leb_le. lia.
      * intros [(? & ? & _ & [=] & _)|(? & ? & [=] & _)].
  - apply rank_bounds in Hr.
    destruct (inherited viewer) as [sv|]; cbn [geq].
    + split; [discriminate|].
      intros [(? & ? & [=] & _)|(? & ? & _ & [=] & _)].
    + split.
      * rewrite Z.leb_le. lia.
      * intros [(? & ? & [=] & _)|(? & ? & _ & [=] & _)].
  - destruct (inherited viewer) as [sv|], (inherited required) as [sr|]; cbn [geq].
    + split.
      * intros H. right. exists sv, sr. auto.
      * intros [(? & ? & [=] & _)|(a & b & _ & _ & [= <-] & [= <-] & H)]. exact H.
    + split; [discriminate|].
      intros [(? & ? & [=] & _)|(? & ? & _ & _ & _ & [=] & _)].
    + split; [discriminate|].
      intros [(? & ? & [=] & _)|(? & ? & _ & _ & [=] & _)].
    + split; [discriminate|].
      intros [(? & ? & [=] & _)|(? & ? & _ & _ & [=] & _)].
Qed.

(** The tier of a member of [Object.prototype] is [undefined]; under that key
    the required level is 99 and no viewer reaches it. *)
Lemma undefined_tier_denied (viewer : string) : accessGranted viewer "undefined" = false.
Proof.
  destruct (accessGranted viewer "undefined") eqn:E; [exfalso|reflexivity].
  apply accessGranted_spec in E.
  destruct E as [(? & ? & _ & E & _)|(? & ? & _ & _ & _ & E & _)];
    vm_compute in E; discriminate E.
Qed.

(** C3 (as amended): access is granted exactly when both tiers are ranked
    and the viewer's rank is at least the required one, or both tiers name
    members of [Object.prototype] and the string of the viewer's member is
    not below the other.  So, when at least one of the two tiers is not such
    a name, access follows the ranks alone and an unranked tier on either
    side is denied. *)
Theorem tier_access_policy (viewer required : string) :
  (accessGranted viewer required = true <->
     (exists rv rr, rank viewer = Some rv /\ rank required = Some rr /\ rr <= rv)
     \/ (exists sv sr, inherited viewer = Some sv /\ inherited required = Some sr /\
           String.leb sr sv = true))
  /\ (inherited viewer = None \/ inherited required = None ->
      (accessGranted viewer required = true <->
         exists rv rr, rank viewer = Some rv /\ rank required = Some rr /\ rr <= rv)
      /\ (rank viewer = None -> accessGranted viewer required = false)
      /\ (rank required = None -> accessGranted viewer required = false)).
Proof.
  split.
  - rewrite accessGranted_spec. split.
    + intros [H|(sv & sr & _ & _ & H)]; [left; exact H|right; exists sv, sr; exact H].
    + intros [H|(sv & sr & Hv & Hr & H)]; [left; exact H|right].
      exists sv, sr.
      destruct (rank viewer) as [rv|] eqn:Ev;
        [apply rank_not_inherited in Ev; congruence|].
      destruct (rank required) as [rr|] eqn:Er;
        [apply rank_not_inherited in Er; congruence|].
      auto.
  - intros Hown.
    assert (Hiff : accessGranted viewer required = true <->
              exists rv rr, rank viewer = Some rv /\ rank required = Some rr /\ rr <= rv).
    { rewrite accessGranted_spec. split; [|intros H; left; exact H].
      intros [H|(sv & sr & _ & _ & Hv & Hr & _)]; [exact H|].
      destruct Hown as [H|H]; congruence. }
    split; [exact Hiff|].
    split; intros Hnone; apply not_true_is_false; intros E;
      apply Hiff in E; destruct E as (rv & rr & Hv & Hr & _); congruence.
Qed.

Lemma tier_access_policy_witness :
  accessGranted "premium" "medium" = true /\ accessGranted "free" "gold" = false.
Proof.
  split.
  - apply (proj2 (tier_access_policy "premium" "medium")); [left; reflexivity|].
    exists 2, 1. repeat split. lia.
  - apply (proj2 (tier_access_policy "free" "gold")); [right; reflexivity|reflexivity].
Defined.

(** The claim fails when both tiers name members of [Object.prototype]: the
    reads [tierLevels["toString"]] find the inherited function on both sides,
    neither default applies, and [>=] holds between the two equal strings.
    Neither tier is one of the three ranked ones, and access is granted. *)
Lemma tier_access_inherited_counterexample :
  rank "toString" = None /\ rank "valueOf" = None /\ rank "__proto__" = None
  /\ accessGranted "toString" "toString" = true
  /\ accessGranted "valueOf" "toString" = true
  /\ accessGranted "__proto__" "__proto__" = true.
Proof. repeat split; vm_compute; reflexivity. Qed.

(** ** Reads and stores on plain objects *)

Lemma get_Own {A : Type} (o : gmap string A) (k : string) (a : A) :
  get o k = Own a <-> o !! k = Some a.
Proof.
  unfold get. destruct (o !! k) as [a'|].
  - split; intros [= ->]; reflexivity.
  - destruct (inherited k); split; discriminate.
Qed.

Lemma boundsOf_get (o : gmap string (number * number)) (k : string) :
  boundsOf (get o k) = o !! k.
Proof. unfold get. destruct (o !! k); [reflexivity|]. destruct (inherited k); reflexivity. Qed.

Lemma lookup_emptyBreakdown (k : string) : emptyBreakdown !! k = None.
Proof.
  unfold lookup, breakdown_lookup, emptyBreakdown. cbn [prototype ownEntries].
  destruct (String.eqb k "__proto__"); [reflexivity|]. apply lookup_empty.
Qed.

Lemma lookup_assign_eq (k : string) (c : ScoreComponent) (b : Breakdown) :
  assign k c b !! k = Some c.
Proof.
  unfold lookup, breakdown_lookup, assign.
  destruct (String.eqb k "__proto__"); cbn [prototype ownEntries]; [reflexivity|].
  apply lookup_insert_eq.
Qed.

Lemma lookup_assign_ne (k k' : string) (c : ScoreComponent) (b : Breakdown) :
  k <> k' -> assign k c b !! k' = b !! k'.
Proof.
  intros Hne. unfold lookup, breakdown_lookup, assign.
  destruct (String.eqb_spec k "__proto__") as [->|Hk]; cbn [prototype ownEntries].
  - rewrite (proj2 (String.eqb_neq k' "__proto__")) by congruence. reflexivity.
  - destruct (String.eqb k' "__proto__"); [reflexivity|].
    apply lookup_insert_ne. exact Hne.
Qed.

(** An own property is what a read yields, for every key but [__proto__]. *)
Lemma ownEntries_lookup (b : Breakdown) (k : string) :
  k <> "__proto__"%string -> ownEntries b !! k = b !! k.
Proof.
  intros Hk. unfold lookup at 2. unfold breakdown_lookup.
  rewrite (proj2 (String.eqb_neq k "__proto__")) by exact Hk. reflexivity.
Qed.

Lemma prototype_lookup (b : Breakdown) : prototype b = b !! "__proto__"%string.
Proof. reflexivity. Qed.

(** No assignment creates an own property [__proto__]. *)
Lemma ownEntries_assign_proto (k : string) (c : ScoreComponent) (b : Breakdown) :
  ownEntries (assign k c b) !! "__proto__"%string = ownEntries b !! "__proto__"%string.
Proof.
  unfold assign. destruct (String.eqb_spec k "__proto__") as [->|Hk];
    cbn [ownEntries]; [reflexivity|].
  apply lookup_insert_ne. exact Hk.
Qed.

(** ** The component recorded for one weighted metric *)

Section PerCompany.

Variable company : Company.
Variable fullRanges : gmap string (number * number).
Variable metricConfigs : gmap string MetricConfig.
Variable currentUserTier : string.

(** The four gates of lines 60-88, in the order the loop tests them. *)
Definition configFound (k : string) : bool :=
  bool_decide (is_Some (metricConfigs !! k)).

Definition tierGranted (k : string) : bool :=
  match metricConfigs !! k with
  | Some cfg => accessGranted currentUserTier (tier cfg)
  | None => false
  end.

Definition valueValid (k : string) : bool :=
  match metricConfigs !! k with
  | Some cfg => isValidNumber (getNestedValue company (nested_path cfg))
  | None => false
  end.

Definition gatesPassed (k : string) : bool :=
  configFound k && tierGranted k && valueValid k && validRange (fullRanges !! k).

(** The component that the loop stores under [k] for a weight [w] that is not
    skipped.  Without an own property [k] of [metricConfigs], the read finds
    either nothing, or the member [k] of [Object.prototype], which passes the
    test of line 60 and fails the tier test with the tier [undefined]. *)
Definition componentFor (k : string) (w : number) : ScoreComponent :=
  let lbl := labelOf (get metricConfigs k) k in
  match metricConfigs !! k with
  | None =>
      excluded lbl None w false
        match inherited k with
        | Some _ => requiresTier "undefined"
        | None => "Metric config not found"%string
        end
  | Some cfg =>
      if negb (accessGranted currentUserTier (tier cfg)) then
        excluded lbl None w false (requiresTier (tier cfg))
      else
        match getNestedValue company (nested_path cfg), fullRanges !! k with
        | Some (Fin raw), Some (Fin lo, Fin hi) =>
            let normalized := normalize (Fin raw) (Fin lo) (Fin hi) (higherIsBetter cfg) in
            mkScoreComponent lbl (Some (Fin raw)) (Some normalized) w
              (Number.mul normalized w) true true None
        | Some (Fin raw), _ =>
            excluded lbl (Some (Fin raw)) w true "Invalid/Missing range"
        | _, _ => excluded lbl None w true "Null value"
        end
  end.

Local Abbreviation step := (scoreMetric company fullRanges metricConfigs currentUserTier).

Lemma scoreMetric_skip (st : Totals) (k : string) (w : number) :
  Number.leb w Number.zero = true -> step st (k, w) = st.
Proof. intros H. unfold scoreMetric. rewrite H. reflexivity. Qed.

Lemma scoreMetric_component (st : Totals) (k : string) (w : number) :
  Number.leb w Number.zero = false ->
  step st (k, w) =
    let c := componentFor k w in
    mkTotals
      (if isIncluded c then Number.add (totalWeightedScore st) (weightedScore c)
       else totalWeightedScore st)
      (if isIncluded c then Number.add (totalEffectiveWeight st) w
       else totalEffectiveWeight st)
      (assign k c (scoreBreakdown st)).
Proof.
  intros H. unfold scoreMetric, componentFor. rewrite H.
  rewrite boundsOf_get. unfold get.
  destruct (metricConfigs !! k) as [cfg|].
  - destruct (accessGranted currentUserTier (tier cfg)); [|reflexivity].
    cbn [negb].
    destruct (getNestedValue company (nested_path cfg)) as [[| |raw]|]; try reflexivity.
    destruct (fullRanges !! k) as [[[| |lo] [| |hi]]|]; reflexivity.
  - destruct (inherited k); [|reflexivity].
    rewrite undefined_tier_denied. reflexivity.
Qed.

Lemma componentFor_included (k : string) (w : number) :
  isIncluded (componentFor k w) = gatesPassed k.
Proof.
  unfold componentFor, gatesPassed, configFound, tierGranted, valueValid.
  destruct (metricConfigs !! k) as [cfg|]; [|reflexivity].
  rewrite bool_decide_eq_true_2 by eauto.
  destruct (accessGranted currentUserTier (tier cfg)); [|reflexivity].
  cbn [negb andb].
  destruct (getNestedValue company (nested_path cfg)) as [[| |raw]|]; try reflexivity.
  destruct (fullRanges !! k) as [[[| |lo] [| |hi]]|]; reflexivity.
Qed.

Lemma componentFor_weight (k : string) (w : number) : weight (componentFor k w) = w.
Proof.
  unfold componentFor.
  destruct (metricConfigs !! k) as [cfg|]; [|reflexivity].
  destruct (accessGranted currentUserTier (tier cfg)); [|reflexivity].
  cbn [negb].
  destruct (getNestedValue company (nested_path cfg)) as [[| |raw]|]; try reflexivity.
  destruct (fullRanges !! k) as [[[| |lo] [| |hi]]|]; reflexivity.
Qed.

Lemma componentFor_error (k : string) (w : number) :
  isIncluded (componentFor k w) = false -> is_Some (error (componentFor k w)).
Proof.
  unfold componentFor.
  destruct (metricConfigs !! k) as [cfg|]; [|eauto].
  destruct (accessGranted currentUserTier (tier cfg)); [|eauto].
  cbn [negb].
  destruct (getNestedValue company (nested_path cfg)) as [[| |raw]|]; eauto.
  destruct (fullRanges !! k) as [[[| |lo] [| |hi]]|]; eauto. discriminate.
Qed.

(** The weight under which the loop last stores a component for [k]: the
    last entry of key [k] that is not skipped. *)
Fixpoint activeWeight (ws : list (string * number)) (k : string) : option number :=
  match ws with
  | [] => None
  | (k', w) :: ws' =>
      match activeWeight ws' k with
      | Some w' => Some w'
      | None =>
          if bool_decide (k' = k) && negb (Number.leb w Number.zero) then Some w
          else None
      end
  end.

Lemma activeWeight_In (ws : list (string * number)) (k : string) (w : number) :
  activeWeight ws k = Some w -> In (k, w) ws /\ Number.leb w Number.zero = false.
Proof.
  induction ws as [|[k' w'] ws IH]; simpl; [discriminate|].
  destruct (activeWeight ws k) as [w0|].
  - intros [= ->]. destruct IH as [? ?]; auto.
  - destruct (bool_decide_reflect (k' = k)) as [->|]; simpl; [|discriminate].
    destruct (Number.leb w' Number.zero) eqn:E; simpl; [discriminate|].
    intros [= ->]. auto.
Qed.

Lemma In_activeWeight (ws : list (string * number)) (k : string) (w : number) :
  In (k, w) ws -> Number.leb w Number.zero = false -> is_Some (activeWeight ws k).
Proof.
  induction ws as [|[k' w'] ws IH]; simpl; [tauto|].
  intros [[= -> ->]|Hin] Hw.
  - destruct (activeWeight ws k); [eauto|].
    rewrite bool_decide_eq_true_2, Hw by reflexivity. simpl. eauto.
  - destruct (IH Hin Hw) as [w0 ->]. eauto.
Qed.

Lemma fold_breakdown (ws : list (string * number)) (st : Totals) (k : string) :
  scoreBreakdown (fold_left step ws st) !! k =
    match activeWeight ws k with
    | Some w => Some (componentFor k w)
    | None => scoreBreakdown st !! k
    end.
Proof.
  revert st. induction ws as [|[k' w'] ws IH]; intros st;
    cbn [fold_left activeWeight]; [reflexivity|].
  rewrite IH. destruct (activeWeight ws k) as [w0|]; [reflexivity|].
  destruct (Number.leb w' Number.zero) eqn:E.
  - rewrite scoreMetric_skip by exact E. rewrite andb_false_r. reflexivity.
  - rewrite scoreMetric_component by exact E. cbn [scoreBreakdown negb].
    rewrite andb_true_r.
    destruct (bool_decide_reflect (k' = k)) as [->|Hne].
    + apply lookup_assign_eq.
    + apply lookup_assign_ne. exact Hne.
Qed.

Lemma fold_ownEntries_proto (ws : list (string * number)) (st : Totals) :
  ownEntries (scoreBreakdown (fold_left step ws st)) !! "__proto__"%string
  = ownEntries (scoreBreakdown st) !! "__proto__"%string.
Proof.
  revert st. induction ws as [|[k w] ws IH]; intros st; cbn [fold_left]; [reflexivity|].
  rewrite IH. destruct (Number.leb w Number.zero) eqn:E.
  - rewrite scoreMetric_skip by exact E. reflexivity.
  - rewrite scoreMetric_component by exact E. cbn [scoreBreakdown].
    apply ownEntries_assign_proto.
Qed.

(** The reason the loop gives for leaving a metric out, by the first gate
    that fails; [None] when every gate passes. *)
Definition exclusionReason (k : string) : option string :=
  match metricConfigs !! k with
  | None =>
      Some match inherited k with
           | Some _ => requiresTier "undefined"
           | None => "Metric config not found"%string
           end
  | Some cfg =>
      if negb (accessGranted currentUserTier (tier cfg)) then
        Some (requiresTier (tier cfg))
      else if negb (isValidNumber (getNestedValue company (nested_path cfg))) then
        Some "Null value"
      else if negb (validRange (fullRanges !! k)) then Some "Invalid/Missing range"
      else None
  end.

Lemma componentFor_reason (k : string) (w : number) :
  error (componentFor k w) = exclusionReason k.
Proof.
  unfold componentFor, exclusionReason.
  destruct (metricConfigs !! k) as [cfg|]; [|reflexivity].
  destruct (accessGranted currentUserTier (tier cfg)); [|reflexivity].
  cbn [negb].
  destruct (getNestedValue company (nested_path cfg)) as [[| |raw]|]; try reflexivity.
  destruct (fullRanges !! k) as [[[| |lo] [| |hi]]|]; reflexivity.
Qed.

Lemma exclusionReason_gates (k : string) :
  exclusionReason k = None <-> gatesPassed k = true.
Proof.
  unfold exclusionReason, gatesPassed, configFound, tierGranted, valueValid.
  destruct (metricConfigs !! k) as [cfg|].
  - rewrite bool_decide_eq_true_2 by eauto.
    destruct (accessGranted currentUserTier (tier cfg)); cbn; [|split; discriminate].
    destruct (isValidNumber _); cbn; [|split; discriminate].
    destruct (validRange _); cbn; split; (reflexivity || discriminate).
  - rewrite bool_decide_eq_false_2 by (intros [? [=]]). cbn. split; discriminate.
Qed.

End PerCompany.

(** ** The ranking is a rearrangement *)

Lemma insertBy_Permutation cmp (x : CompanyScore) (l : list CompanyScore) :
  Permutation (insertBy cmp x l) (x :: l).
Proof.
  induction l as [|y l IH]; simpl; [reflexivity|].
  destruct (Number.gtb (cmp x y) Number.zero); [|reflexivity].
  rewrite IH. apply perm_swap.
Qed.

Lemma sortBy_Permutation cmp (l : list CompanyScore) : Permutation (sortBy cmp l) l.
Proof.
  induction l as [|x l IH]; simpl; [reflexivity|].
  rewrite insertBy_Permutation. constructor. exact IH.
Qed.

Lemma calculateScores_Permutation companies weights fullRanges metricConfigs tier0 :
  Permutation (calculateScores companies weights fullRanges metricConfigs tier0)
    (map (scoreCompany weights fullRanges metricConfigs tier0) companies).
Proof. apply sortBy_Permutation. Qed.

Lemma calculateScores_In companies weights fullRanges metricConfigs tier0 r :
  In r (calculateScores companies weights fullRanges metricConfigs tier0) <->
  exists company, In company companies /\
    r = scoreCompany weights fullRanges metricConfigs tier0 company.
Proof.
  split.
  - intros H.
    apply (Permutation_in _ (calculateScores_Permutation _ _ _ _ _)) in H.
    apply in_map_iff in H. destruct H as (c & <- & Hc). eauto.
  - intros (c & Hc & ->).
    apply (Permutation_in _ (Permutation_sym (calculateScores_Permutation _ _ _ _ _))).
    apply in_map. exact Hc.
Qed.

Lemma scoreCompany_breakdown weights fullRanges metricConfigs tier0 company k :
  breakdown (scoreCompany weights fullRanges metricConfigs tier0 company) !! k =
    componentFor company fullRanges metricConfigs tier0 k <$> activeWeight weights k.
Proof.
  unfold scoreCompany. cbn [breakdown]. rewrite fold_breakdown.
  destruct (activeWeight weights k); [reflexivity|]. apply lookup_emptyBreakdown.
Qed.

(** The own properties of a result's breakdown: the stored components, but
    for the key [__proto__]. *)
Lemma scoreCompany_ownEntries weights fullRanges metricConfigs tier0 company k :
  ownEntries (breakdown (scoreCompany weights fullRanges metricConfigs tier0 company)) !! k
  = if String.eqb k "__proto__" then None
    else componentFor company fullRanges metricConfigs tier0 k <$> activeWeight weights k.
Proof.
  destruct (String.eqb_spec k "__proto__") as [->|Hk].
  - unfold scoreCompany. cbn [breakdown]. rewrite fold_ownEntries_proto.
    apply lookup_empty.
  - rewrite ownEntries_lookup by exact Hk. apply scoreCompany_breakdown.
Qed.

(** The prototype of a result's breakdown: the component stored under
    [__proto__], if any. *)
Lemma scoreCompany_prototype weights fullRanges metricConfigs tier0 company :
  prototype (breakdown (scoreCompany weights fullRanges metricConfigs tier0 company))
  = componentFor company fullRanges metricConfigs tier0 "__proto__"
      <$> activeWeight weights "__proto__".
Proof. exact (scoreCompany_breakdown _ _ _ _ _ "__proto__"%string). Qed.

(** ** Comparison facts *)

Lemma leb_false_gtb (w : number) :
  Number.leb w Number.zero = false -> Number.isNaN w = false ->
  Number.gtb w Number.zero = true.
Proof.
  destruct w as [|s|n]; unfold Number.leb, Number.gtb, Number.ltb, Number.zero;
    cbn [Number.isNaN].
  - discriminate.
  - intros -> _. reflexivity.
  - intros H _. apply Z.leb_gt in H. apply Z.ltb_lt. exact H.
Qed.

Lemma gtb_leb_false (w : number) :
  Number.gtb w Number.zero = true -> Number.leb w Number.zero = false.
Proof.
  destruct w as [|s|n]; unfold Number.leb, Number.gtb, Number.ltb, Number.zero.
  - discriminate.
  - intros H. apply negb_true_iff in H. exact H.
  - intros H. apply Z.ltb_lt in H. apply Z.leb_gt. exact H.
Qed.

(** A weight of the range [[0, 100]] that is not zero passes the guard
    [weight <= 0] of line 47. *)
Lemma weight_in_range_kept (w : number) :
  Number.leb Number.zero w = true -> Number.leb w (Number.of_Z 100) = true ->
  w <> Number.zero -> Number.leb w Number.zero = false.
Proof.
  assert (Hc : exists n, Number.of_Z 100 = Fin n) by (vm_compute; eauto).
  destruct Hc as [c ->].
  destruct w as [|s|n]; unfold Number.leb, Number.zero.
  - discriminate.
  - intros H1 H2. rewrite H2 in H1. discriminate.
  - intros H _ Hn. apply Z.leb_le in H. apply Z.leb_gt.
    assert (n <> 0) by congruence. lia.
Qed.

(** ** Sample inputs *)

Module Sample.

Definition configs : gmap string MetricConfig :=
  <["revenue" := mkMetricConfig "Revenue" "free" "financials.revenue_value" true]>
  (<["debt" := mkMetricConfig "Debt" "free" "financials.debt_value" false]>
  (<["reserves" := mkMetricConfig "Reserves" "premium" "mineral.reserves" true]> ∅)).

Definition ranges : gmap string (number * number) :=
  <["revenue" := (Number.of_Z 0, Number.of_Z 100)]>
  (<["debt" := (Number.of_Z 0, Number.of_Z 100)]>
  (<["reserves" := (Number.of_Z 10, Number.of_Z 10)]> ∅)).

Definition acme : Company :=
  mkCompany 1 "Acme"
    (<["financials.revenue_value" := Number.of_Z 50]>
    (<["mineral.reserves" := Number.of_Z 15]> ∅)).

Definition borax : Company :=
  mkCompany 2 "Borax"
    (<["financials.revenue_value" := Number.of_Z 80]>
    (<["financials.debt_value" := Number.of_Z 25]> ∅)).

Definition weights : list (string * number) :=
  [("revenue", Number.of_Z 100); ("debt", Number.of_Z 50);
   ("reserves", Number.of_Z 20); ("ghost", Number.of_Z 5);
   ("unused", Number.zero)].

End Sample.

(** ** Results per company and recorded exclusions *)

Lemma componentFor_included_error company fullRanges metricConfigs tier0 k w :
  isIncluded (componentFor company fullRanges metricConfigs tier0 k w) = false <->
  is_Some (error (componentFor company fullRanges metricConfigs tier0 k w)).
Proof.
  split; [apply componentFor_error|].
  rewrite componentFor_reason, componentFor_included.
  intros [e He]. destruct (gatesPassed _ _ _ _ k) eqn:G; [|reflexivity].
  apply exclusionReason_gates in G. congruence.
Qed.

(** Weight keys that name members of [Object.prototype]. *)
Module PrototypeKeys.

Definition weights : list (string * number) :=
  [("__proto__", Number.of_Z 50); ("constructor", Number.of_Z 50)].

End PrototypeKeys.

(** A weight that is not a number. *)
Module NaNWeight.

Definition weights : list (string * number) := [("revenue", NaN)].

End NaNWeight.

(** C8 (as amended): the call yields exactly one result per input company
    (the output is a rearrangement of the per-company results), and for
    every metric that the loop does not skip the breakdown holds a component
    with the reason of the first failing gate as its error when it is left
    out.  Under every key but [__proto__] the component is an entry of the
    breakdown; under [__proto__] it is the prototype and not an entry. *)
Theorem calculateScores_records_anomalies
    (companies : list Company) (weights : list (string * number))
    (fullRanges : gmap string (number * number))
    (metricConfigs : gmap string MetricConfig) (tier0 : string) :
  Permutation (calculateScores companies weights fullRanges metricConfigs tier0)
    (map (scoreCompany weights fullRanges metricConfigs tier0) companies)
  /\ List.length (calculateScores companies weights fullRanges metricConfigs tier0)
     = List.length companies
  /\ forall company k w,
       In company companies -> In (k, w) weights ->
       Number.leb w Number.zero = false ->
       let b := breakdown (scoreCompany weights fullRanges metricConfigs tier0 company) in
       exists c,
         b !! k = Some c
         /\ error c = exclusionReason company fullRanges metricConfigs tier0 k
         /\ (isIncluded c = false <-> is_Some (error c))
         /\ (k <> "__proto__"%string -> ownEntries b !! k = Some c)
         /\ (k = "__proto__"%string ->
             prototype b = Some c /\ ownEntries b !! k = None).
Proof.
  split; [apply calculateScores_Permutation|]. split.
  - rewrite (Permutation_length (calculateScores_Permutation _ _ _ _ _)).
    apply length_map.
  - intros company k w _ Hin Hw b. subst b.
    destruct (In_activeWeight _ _ _ Hin Hw) as [w0 Hw0].
    exists (componentFor company fullRanges metricConfigs tier0 k w0).
    rewrite scoreCompany_breakdown, Hw0. split; [reflexivity|].
    split; [apply componentFor_reason|].
    split; [apply componentFor_included_error|].
    rewrite scoreCompany_ownEntries. split.
    + intros Hk. rewrite (proj2 (String.eqb_neq k "__proto__")) by exact Hk.
      rewrite Hw0. reflexivity.
    + intros ->. rewrite scoreCompany_prototype, Hw0. split; reflexivity.
Qed.

Lemma calculateScores_records_anomalies_witness :
  (exists c,
     ownEntries (breakdown (scoreCompany Sample.weights Sample.ranges Sample.configs
                              "free" Sample.acme)) !! "ghost" = Some c
     /\ error c = Some "Metric config not found"%string)
  /\ (exists c,
        ownEntries (breakdown (scoreCompany PrototypeKeys.weights Sample.ranges
                                 Sample.configs "free" Sample.acme)) !! "constructor"
          = Some c
        /\ error c = Some "Requires undefined tier"%string).
Proof.
  split.
  - destruct (proj2 (proj2 (calculateScores_records_anomalies
                [Sample.acme; Sample.borax] Sample.weights Sample.ranges
                Sample.configs "free"))
                Sample.acme "ghost"%string (Number.of_Z 5))
      as (c & _ & He & _ & Hc & _).
    + left. reflexivity.
    + right. right. right. left. reflexivity.
    + vm_compute. reflexivity.
    + exists c. split; [apply Hc; discriminate|]. rewrite He. vm_compute. reflexivity.
  - destruct (proj2 (proj2 (calculateScores_records_anomalies
                [Sample.acme] PrototypeKeys.weights Sample.ranges
                Sample.configs "free"))
                Sample.acme "constructor"%string (Number.of_Z 50))
      as (c & _ & He & _ & Hc & _).
    + left. reflexivity.
    + right. left. reflexivity.
    + vm_compute. reflexivity.
    + exists c. split; [apply Hc; discriminate|]. rewrite He. vm_compute. reflexivity.
Defined.

(** The claim fails for the weight key [__proto__]: the catalogue has no
    metric of that name, and the component that carries the exclusion is
    assigned to [scoreBreakdown["__proto__"]], which makes it the prototype
    of the breakdown and stores no entry.  With that key alone the breakdown
    has no entry at all, and so records no reason. *)
Lemma records_anomalies_proto_counterexample :
  Sample.configs !! "__proto__"%string = None
  /\ Number.leb (Number.of_Z 50) Number.zero = false
  /\ exists r,
       calculateScores [Sample.acme] [("__proto__"%string, Number.of_Z 50)]
         Sample.ranges Sample.configs "free" = [r]
       /\ ownEntries (breakdown r) = ∅
       /\ score r = None.
Proof.
  split; [vm_compute; reflexivity|]. split; [vm_compute; reflexivity|].
  eexists. split; [reflexivity|]. split; [|vm_compute; reflexivity].
  apply map_eq. intros k. rewrite scoreCompany_ownEntries, lookup_empty.
  destruct (String.eqb_spec k "__proto__") as [->|Hk]; [reflexivity|].
  cbn [activeWeight]. rewrite bool_decide_eq_false_2 by congruence. reflexivity.
Qed.

(** C5 (as amended): with a weight of [[0, 100]] that is not zero, every
    result holds a component for that metric key, and a component that is
    left out of the score carries an error text.  Under every key but
    [__proto__] the component is an entry of the breakdown; under
    [__proto__] it is the prototype of the breakdown and not an entry. *)
Theorem breakdown_covers_weighted_metrics
    (companies : list Company) (weights : list (string * number))
    (fullRanges : gmap string (number * number))
    (metricConfigs : gmap string MetricConfig) (tier0 : string)
    (k : string) (w : number) (r : CompanyScore) :
  In (k, w) weights ->
  Number.leb Number.zero w = true -> Number.leb w (Number.of_Z 100) = true ->
  w <> Number.zero ->
  In r (calculateScores companies weights fullRanges metricConfigs tier0) ->
  exists c, breakdown r !! k = Some c
            /\ (isIncluded c = false -> is_Some (error c))
            /\ (k <> "__proto__"%string -> ownEntries (breakdown r) !! k = Some c)
            /\ (k = "__proto__"%string ->
                prototype (breakdown r) = Some c
                /\ ownEntries (breakdown r) !! k = None).
Proof.
  intros Hin H0 H100 Hnz Hr.
  apply calculateScores_In in Hr. destruct Hr as (company & _ & ->).
  pose proof (weight_in_range_kept w H0 H100 Hnz) as Hw.
  destruct (In_activeWeight _ _ _ Hin Hw) as [w0 Hw0].
  exists (componentFor company fullRanges metricConfigs tier0 k w0).
  rewrite scoreCompany_breakdown, Hw0. split; [reflexivity|].
  split; [apply componentFor_error|].
  rewrite scoreCompany_ownEntries. split.
  - intros Hk. rewrite (proj2 (String.eqb_neq k "__proto__")) by exact Hk.
    rewrite Hw0. reflexivity.
  - intros ->. rewrite scoreCompany_prototype, Hw0. split; reflexivity.
Qed.

Lemma breakdown_covers_weighted_metrics_witness :
  exists c,
    ownEntries (breakdown (scoreCompany Sample.weights Sample.ranges Sample.configs
                             "free" Sample.acme)) !! "reserves" = Some c
    /\ (isIncluded c = false -> is_Some (error c)).
Proof.
  destruct (breakdown_covers_weighted_metrics [Sample.acme] Sample.weights
              Sample.ranges Sample.configs "free" "reserves" (Number.of_Z 20)
              (scoreCompany Sample.weights Sample.ranges Sample.configs "free"
                 Sample.acme))
    as (c & _ & He & Hc & _).
  - right. right. left. reflexivity.
  - vm_compute. reflexivity.
  - vm_compute. reflexivity.
  - vm_compute. discriminate.
  - left. reflexivity.
  - exists c. split; [apply Hc; discriminate|exact He].
Defined.

(** The claim fails for the weight key [__proto__]: its weight 50 lies in
    [[0, 100]] and is not zero, and the result has no entry under that key,
    while the key [constructor] beside it has one. *)
Lemma breakdown_proto_key_counterexample :
  In ("__proto__"%string, Number.of_Z 50) PrototypeKeys.weights
  /\ Number.leb Number.zero (Number.of_Z 50) = true
  /\ Number.leb (Number.of_Z 50) (Number.of_Z 100) = true
  /\ Number.of_Z 50 <> Number.zero
  /\ exists r,
       calculateScores [Sample.acme] PrototypeKeys.weights Sample.ranges
         Sample.configs "free" = [r]
       /\ ownEntries (breakdown r) !! "__proto__"%string = None
       /\ is_Some (ownEntries (breakdown r) !! "constructor"%string)
       /\ forall k, is_Some (ownEntries (breakdown r) !! k) -> k = "constructor"%string.
Proof.
  split; [left; reflexivity|].
  split; [vm_compute; reflexivity|].
  split; [vm_compute; reflexivity|].
  split; [vm_compute; discriminate|].
  eexists. split; [reflexivity|].
  split; [rewrite scoreCompany_ownEntries; reflexivity|].
  split; [rewrite scoreCompany_ownEntries; vm_compute; eauto|].
  intros k. rewrite scoreCompany_ownEntries.
  destruct (String.eqb_spec k "__proto__") as [->|Hk]; [intros [? [=]]|].
  cbn [activeWeight PrototypeKeys.weights].
  destruct (bool_decide_reflect ("constructor"%string = k)) as [<-|Hc]; [reflexivity|].
  rewrite (bool_decide_eq_false_2 ("__proto__"%string = k)) by congruence.
  cbn [andb fmap option_fmap option_map]. intros [? [=]].
Qed.

(** C4 (as amended): a component of a breakdown is included exactly when its
    metric passes every gate (definition found, tier granted, value finite,
    range present with finite bounds) and its weight is not [<= 0]; unless
    the weight is [NaN], that is a weight [> 0].  A component whose weight is
    [<= 0] is never included. *)
Theorem included_iff_gates_and_weight
    (companies : list Company) (weights : list (string * number))
    (fullRanges : gmap string (number * number))
    (metricConfigs : gmap string MetricConfig) (tier0 : string)
    (r : CompanyScore) :
  In r (calculateScores companies weights fullRanges metricConfigs tier0) ->
  exists company, In company companies /\ companyId r = company_id company /\
    forall k c, breakdown r !! k = Some c ->
      (isIncluded c = true <->
         gatesPassed company fullRanges metricConfigs tier0 k = true
         /\ Number.leb (weight c) Number.zero = false)
      /\ (Number.isNaN (weight c) = false ->
          (isIncluded c = true <->
             gatesPassed company fullRanges metricConfigs tier0 k = true
             /\ Number.gtb (weight c) Number.zero = true))
      /\ (Number.leb (weight c) Number.zero = true -> isIncluded c = false).
Proof.
  intros Hr.
  apply calculateScores_In in Hr. destruct Hr as (company & Hc & ->).
  exists company. split; [exact Hc|]. split; [reflexivity|].
  intros k c. rewrite scoreCompany_breakdown.
  destruct (activeWeight weights k) as [w|] eqn:Hw; [|discriminate].
  intros [= <-].
  apply activeWeight_In in Hw. destruct Hw as [Hin Hle].
  rewrite componentFor_included, componentFor_weight.
  split; [intuition|]. split.
  - intros Hnan. pose proof (leb_false_gtb w Hle Hnan) as Hgt. intuition.
  - rewrite Hle. discriminate.
Qed.

Lemma included_iff_gates_and_weight_witness :
  exists company, In company [Sample.acme] /\
    companyId (scoreCompany Sample.weights Sample.ranges Sample.configs "free"
                 Sample.acme) = company_id company /\
    forall k c,
      breakdown (scoreCompany Sample.weights Sample.ranges Sample.configs "free"
                   Sample.acme) !! k = Some c ->
      (isIncluded c = true <->
         gatesPassed company Sample.ranges Sample.configs "free" k = true
         /\ Number.leb (weight c) Number.zero = false)
      /\ (Number.isNaN (weight c) = false ->
          (isIncluded c = true <->
             gatesPassed company Sample.ranges Sample.configs "free" k = true
             /\ Number.gtb (weight c) Number.zero = true))
      /\ (Number.leb (weight c) Number.zero = true -> isIncluded c = false).
Proof.
  apply (included_iff_gates_and_weight [Sample.acme] Sample.weights).
  left. reflexivity.
Defined.

(** The claim fails for a weight that is [NaN]: the guard [weight <= 0] of
    line 47 is false for it, so the metric is processed, passes every gate
    and is stored as included, although its weight is not [> 0]. *)
Lemma included_nan_weight_counterexample :
  exists r c,
    calculateScores [Sample.acme] NaNWeight.weights Sample.ranges Sample.configs
      "free" = [r]
    /\ breakdown r !! "revenue"%string = Some c
    /\ gatesPassed Sample.acme Sample.ranges Sample.configs "free" "revenue" = true
    /\ isIncluded c = true
    /\ weight c = NaN
    /\ Number.gtb (weight c) Number.zero = false.
Proof.
  eexists. eexists. split; [reflexivity|].
  split; [vm_compute; reflexivity|].
  split; [vm_compute; reflexivity|].
  repeat split.
Qed.

(** ** Degenerate ranges *)






(** ** Values behind a denied tier *)

(** Two companies that differ at most in the value stored at [path]. *)
Definition sameExceptAt (path : string) (c1 c2 : Company) : Prop :=
  company_id c1 = company_id c2 /\ company_name c1 = company_name c2 /\
  forall q, q <> path -> company_values c1 !! q = company_values c2 !! q.

Lemma fold_left_ext_In {A B : Type} (f g : A -> B -> A) (l : list B) (a : A) :
  (forall x b, In b l -> f x b = g x b) -> fold_left f l a = fold_left g l a.
Proof.
  revert a. induction l as [|b l IH]; intros a H; simpl; [reflexivity|].
  rewrite (H a b) by (left; reflexivity).
  apply IH. intros x b' Hb. apply H. right. exact Hb.
Qed.

Lemma componentFor_denied company fullRanges metricConfigs tier0 k w :
  tierGranted metricConfigs tier0 k = false ->
  let c := componentFor company fullRanges metricConfigs tier0 k w in
  rawValue c = None /\ normalizedValue c = None /\ isIncluded c = false
  /\ isAccessible c = false.
Proof.
  unfold tierGranted, componentFor.
  destruct (metricConfigs !! k) as [cfg|]; [|cbn; auto].
  intros ->. cbn. auto.
Qed.

Module SharedPath.

Definition configs : gmap string MetricConfig :=
  <["reserves" := mkMetricConfig "Reserves" "premium" "mineral.reserves" true]>
  (<["resources" := mkMetricConfig "Resources" "free" "mineral.reserves" true]> ∅).

Definition ranges : gmap string (number * number) :=
  <["reserves" := (Number.of_Z 0, Number.of_Z 100)]>
  (<["resources" := (Number.of_Z 0, Number.of_Z 100)]> ∅).

Definition low : Company :=
  mkCompany 1 "Acme" (<["mineral.reserves" := Number.of_Z 10]> ∅).
Definition high : Company :=
  mkCompany 1 "Acme" (<["mineral.reserves" := Number.of_Z 90]> ∅).

Definition weights : list (string * number) :=
  [("reserves", Number.of_Z 50); ("resources", Number.of_Z 50)].

End SharedPath.

Lemma scoreMetric_sameExceptAt path c1 c2 fullRanges metricConfigs tier0 st k w :
  sameExceptAt path c1 c2 ->
  (forall cfg, metricConfigs !! k = Some cfg -> nested_path cfg = path ->
               Number.leb w Number.zero = false ->
               accessGranted tier0 (tier cfg) = false) ->
  scoreMetric c1 fullRanges metricConfigs tier0 st (k, w) =
  scoreMetric c2 fullRanges metricConfigs tier0 st (k, w).
Proof.
  intros (_ & _ & Hv) Hden. unfold scoreMetric.
  destruct (Number.leb w Number.zero) eqn:Hw; [reflexivity|].
  destruct (get metricConfigs k) as [cfg| |] eqn:Hcfg; try reflexivity.
  apply get_Own in Hcfg.
  destruct (accessGranted tier0 (tier cfg)) eqn:Hacc; [|reflexivity].
  cbn [negb]. unfold getNestedValue.
  rewrite (Hv (nested_path cfg)); [reflexivity|].
  intros Hp. specialize (Hden cfg Hcfg Hp eq_refl). congruence.
Qed.

(** C10 (as amended): when every weighted metric that reads the value path
    [path] is denied to the viewer, two company lists that differ only in the
    values at [path] give the same output, and a denied or undefined metric
    is recorded with no raw value and no normalized value. *)
Theorem denied_values_do_not_flow
    (path : string) (cs1 cs2 : list Company) (weights : list (string * number))
    (fullRanges : gmap string (number * number))
    (metricConfigs : gmap string MetricConfig) (tier0 : string) :
  Forall2 (sameExceptAt path) cs1 cs2 ->
  (forall k w cfg, In (k, w) weights -> Number.leb w Number.zero = false ->
     metricConfigs !! k = Some cfg -> nested_path cfg = path ->
     accessGranted tier0 (tier cfg) = false) ->
  calculateScores cs1 weights fullRanges metricConfigs tier0
  = calculateScores cs2 weights fullRanges metricConfigs tier0
  /\ forall r k c,
       In r (calculateScores cs1 weights fullRanges metricConfigs tier0) ->
       breakdown r !! k = Some c ->
       tierGranted metricConfigs tier0 k = false ->
       rawValue c = None /\ normalizedValue c = None /\ isIncluded c = false.
Proof.
  intros Hcs Hden. split.
  - unfold calculateScores. f_equal.
    induction Hcs as [|c1 c2 l1 l2 H12 _ IH]; [reflexivity|].
    cbn [map]. f_equal; [|exact IH].
    unfold scoreCompany.
    destruct H12 as (Hid & Hname & Hv). rewrite Hid, Hname.
    replace (fold_left (scoreMetric c1 fullRanges metricConfigs tier0) weights
               initialTotals)
      with (fold_left (scoreMetric c2 fullRanges metricConfigs tier0) weights
              initialTotals); [reflexivity|].
    symmetry. apply fold_left_ext_In. intros st [k w] Hin.
    apply (scoreMetric_sameExceptAt path); [repeat split; assumption|].
    intros cfg Hcfg Hp Hw. exact (Hden k w cfg Hin Hw Hcfg Hp).
  - intros r k c Hr. apply calculateScores_In in Hr.
    destruct Hr as (company & _ & ->).
    rewrite scoreCompany_breakdown.
    destruct (activeWeight weights k) as [w|]; [|discriminate].
    intros [= <-] Hg.
    destruct (componentFor_denied company fullRanges metricConfigs tier0 k w Hg)
      as (? & ? & ? & _). auto.
Qed.

Lemma denied_values_do_not_flow_witness :
  calculateScores [Sample.acme] Sample.weights Sample.ranges Sample.configs "free"
  = calculateScores
      [mkCompany 1 "Acme"
         (<["mineral.reserves" := Number.of_Z 99]> (company_values Sample.acme))]
      Sample.weights Sample.ranges Sample.configs "free".
Proof.
  refine (proj1 (denied_values_do_not_flow "mineral.reserves" [Sample.acme]
            [mkCompany 1 "Acme"
               (<["mineral.reserves" := Number.of_Z 99]> (company_values Sample.acme))]
            Sample.weights Sample.ranges Sample.configs "free" _ _)).
  - constructor; [|constructor].
    split; [reflexivity|]. split; [reflexivity|].
    intros q Hq. cbn [company_values]. symmetry. apply lookup_insert_ne. congruence.
  - intros k w cfg Hin _.
    unfold Sample.weights, In in Hin.
    destruct Hin as [E|[E|[E|[E|[E|[]]]]]];
      apply pair_equal_spec in E; destruct E as [<- <-];
      vm_compute; intros [= <-]; (discriminate || reflexivity).
Defined.

(** The claim without the side condition fails: the premium metric
    [reserves] is denied to a free viewer, the two companies differ only at
    its value path, and the scores differ because the free metric
    [resources] reads the same path. *)
Lemma denied_values_shared_path_counterexample :
  accessGranted "free" "premium" = false
  /\ sameExceptAt "mineral.reserves" SharedPath.low SharedPath.high
  /\ calculateScores [SharedPath.low] SharedPath.weights SharedPath.ranges
       SharedPath.configs "free"
     <> calculateScores [SharedPath.high] SharedPath.weights SharedPath.ranges
          SharedPath.configs "free".
Proof.
  split; [vm_compute; reflexivity|]. split.
  - split; [reflexivity|]. split; [reflexivity|].
    intros q Hq. cbn [company_values SharedPath.low SharedPath.high].
    rewrite !lookup_insert_ne by congruence. reflexivity.
  - intros H. apply (f_equal (map score)) in H. vm_compute in H. discriminate.
Qed.

(** * Rounding

    Facts about [Number.round]: it is monotone, keeps the sign and leaves
    representable values unchanged.  They carry the bounds of the scoring
    arithmetic. *)

Module Rounding.

Lemma rne_spec (P D : Z) :
  0 < D ->
  let z := Number.rne P D in
  (2 * z - 1) * D <= 2 * P <= (2 * z + 1) * D
  /\ (2 * P = (2 * z + 1) * D -> Z.even z = true)
  /\ (2 * P = (2 * z - 1) * D -> Z.even z = true).
Proof.
  intros HD. unfold Number.rne.
  pose proof (Z.div_mod P D ltac:(lia)) as E.
  pose proof (Z.mod_pos_bound P D HD) as B.
  set (q := P / D) in *. set (r := P mod D) in *.
  destruct (Z.compare_spec (2 * r) D) as [H|H|H]; cbv beta iota zeta.
  - destruct (Z.even q) eqn:Ev.
    + split; [nia|]. split; [intros _; exact Ev|]. intros H1. nia.
    + split; [nia|]. split; [intros H1; nia|]. intros _.
      rewrite Z.even_add, Ev. reflexivity.
  - split; [nia|]. split; intros H1; nia.
  - split; [nia|]. split; intros H1; nia.
Qed.

Lemma even_succ_false (z : Z) : Z.even z = true -> Z.even (z + 1) = true -> False.
Proof. rewrite Z.even_add. intros ->. discriminate. Qed.

(** [rne] is monotone in the quotient it rounds. *)
Lemma rne_mono (P1 D1 P2 D2 : Z) :
  0 < D1 -> 0 < D2 -> P1 * D2 <= P2 * D1 ->
  Number.rne P1 D1 <= Number.rne P2 D2.
Proof.
  intros H1 H2 Hle.
  destruct (rne_spec P1 D1 H1) as ([L1 U1] & T1 & T1').
  destruct (rne_spec P2 D2 H2) as ([L2 U2] & T2 & T2').
  set (z1 := Number.rne P1 D1) in *. set (z2 := Number.rne P2 D2) in *.
  destruct (Z_le_gt_dec z1 z2) as [|Hgt]; [assumption|exfalso].
  assert (Hz : z1 = z2 + 1).
  { assert (z1 <= z2 + 1); [|lia].
    destruct (Z_le_gt_dec z1 (z2 + 1)) as [|Hbig]; [assumption|exfalso].
    assert ((2 * z2 + 1) * D2 * D1 < (2 * z1 - 1) * D1 * D2) by nia.
    nia. }
  assert (E1 : 2 * P1 = (2 * z1 - 1) * D1) by nia.
  assert (E2 : 2 * P2 = (2 * z2 + 1) * D2) by nia.
  apply T1' in E1. apply T2 in E2. rewrite Hz in E1.
  exact (even_succ_false _ E2 E1).
Qed.

Lemma rne_exact (z D : Z) : 0 < D -> Number.rne (z * D) D = z.
Proof.
  intros HD. unfold Number.rne.
  rewrite Z.div_mul, Z.mod_mul by lia.
  replace (2 * 0) with 0 by reflexivity.
  destruct (Z.compare_spec 0 D); lia.
Qed.

Lemma rne_nonneg (P D : Z) : 0 <= P -> 0 < D -> 0 <= Number.rne P D.
Proof.
  intros HP HD. rewrite <- (rne_exact 0 D HD). apply rne_mono; lia.
Qed.


Lemma div_cross_le (P1 D1 P2 D2 : Z) :
  0 < D1 -> 0 < D2 -> P1 * D2 <= P2 * D1 -> P1 / D1 <= P2 / D2.
Proof.
  intros H1 H2 Hle. apply Z.div_le_lower_bound; [exact H2|].
  pose proof (Z.mul_div_le P1 D1 H1). nia.
Qed.

Lemma shift_spec (P D : Z) :
  0 <= P -> 0 < D ->
  let k := Number.shift P D in
  0 <= k /\ P < 2 ^ (53 + k) * D /\ (0 < k -> 2 ^ (52 + k) * D <= P).
Proof.
  intros HP HD. unfold Number.shift.
  pose proof (Z.div_pos P D HP HD) as Hq.
  pose proof (Z.mul_div_le P D HD) as Hlo.
  pose proof (Z.mul_succ_div_gt P D HD) as Hhi.
  set (q := P / D) in *.
  destruct (Z.eq_dec q 0) as [E|E].
  - rewrite E. change (Z.log2 0) with 0.
    change (Z.max 0 (0 - 52)) with 0. change (2 ^ (53 + 0)) with 9007199254740992.
    split; [lia|]. split; [|lia]. rewrite E in Hhi. lia.
  - pose proof (Z.log2_spec q ltac:(lia)) as [Ll Lu].
    pose proof (Z.log2_nonneg q) as Hl.
    set (l := Z.log2 q) in *.
    destruct (Z_le_gt_dec l 52) as [Hs|Hs].
    + rewrite Z.max_l by lia. split; [lia|]. split; [|lia].
      assert (2 ^ Z.succ l <= 2 ^ (53 + 0)) by (apply Z.pow_le_mono_r; lia).
      nia.
    + rewrite Z.max_r by lia. split; [lia|].
      replace (53 + (l - 52)) with (Z.succ l) by lia.
      replace (52 + (l - 52)) with l by lia.
      split; [nia|]. intros _. nia.
Qed.

Lemma shift_mono (P1 D1 P2 D2 : Z) :
  0 <= P1 -> 0 < D1 -> 0 < D2 -> P1 * D2 <= P2 * D1 ->
  Number.shift P1 D1 <= Number.shift P2 D2.
Proof.
  intros HP H1 H2 Hle. unfold Number.shift.
  pose proof (Z.log2_le_mono _ _ (div_cross_le P1 D1 P2 D2 H1 H2 Hle)). lia.
Qed.

Lemma round53_mono (P1 D1 P2 D2 : Z) :
  0 <= P1 -> 0 < D1 -> 0 < D2 -> P1 * D2 <= P2 * D1 ->
  Number.round53 P1 D1 <= Number.round53 P2 D2.
Proof.
  intros HP H1 H2 Hle. unfold Number.round53.
  assert (HP2 : 0 <= P2) by nia.
  pose proof (shift_mono P1 D1 P2 D2 HP H1 H2 Hle) as Hk.
  destruct (shift_spec P1 D1 HP H1) as (K1 & U1 & _).
  destruct (shift_spec P2 D2 HP2 H2) as (K2 & _ & L2).
  set (k1 := Number.shift P1 D1) in *. set (k2 := Number.shift P2 D2) in *.
  assert (E1 : 0 < 2 ^ k1) by (apply Z.pow_pos_nonneg; lia).
  assert (E2 : 0 < 2 ^ k2) by (apply Z.pow_pos_nonneg; lia).
  destruct (Z.eq_dec k1 k2) as [E|E].
  - rewrite <- E. apply Z.mul_le_mono_nonneg_r; [lia|].
    apply rne_mono; nia.
  - assert (Hlt : k1 < k2) by lia.
    assert (A : Number.rne P1 (D1 * 2 ^ k1) <= 2 ^ 53).
    { rewrite Z.pow_add_r in U1 by lia.
      apply Z.le_trans with (Number.rne (2 ^ 53 * (D1 * 2 ^ k1)) (D1 * 2 ^ k1));
        [apply rne_mono; nia | rewrite rne_exact by nia; lia]. }
    assert (B : 2 ^ 52 <= Number.rne P2 (D2 * 2 ^ k2)).
    { specialize (L2 ltac:(lia)). rewrite Z.pow_add_r in L2 by lia.
      apply Z.le_trans with (Number.rne (2 ^ 52 * (D2 * 2 ^ k2)) (D2 * 2 ^ k2));
        [rewrite rne_exact by nia; lia | apply rne_mono; nia]. }
    assert (C : 2 ^ 53 * 2 ^ k1 <= 2 ^ 52 * 2 ^ k2).
    { rewrite <- !Z.pow_add_r by lia. apply Z.pow_le_mono_r; lia. }
    nia.
Qed.

Lemma round53_exact (m e D : Z) :
  0 <= m < 2 ^ 53 -> 0 <= e -> 0 < D ->
  Number.round53 (m * 2 ^ e * D) D = m * 2 ^ e.
Proof.
  intros Hm He HD. unfold Number.round53, Number.shift.
  rewrite Z.div_mul by lia.
  assert (Hp : 0 < 2 ^ e) by (apply Z.pow_pos_nonneg; lia).
  destruct (Z.eq_dec m 0) as [->|Hm0].
  - rewrite !Z.mul_0_l. change (Z.log2 0) with 0.
    change (Z.max 0 (0 - 52)) with 0. rewrite Z.pow_0_r, !Z.mul_1_r.
    pose proof (rne_exact 0 D HD) as R. rewrite Z.mul_0_l in R. exact R.
  - rewrite Z.log2_mul_pow2 by lia.
    assert (Hl : Z.log2 m < 53) by (apply Z.log2_lt_pow2; lia).
    pose proof (Z.log2_nonneg m) as Hl0.
    set (k := Z.max 0 (e + Z.log2 m - 52)).
    assert (Hk : 0 <= k <= e) by lia.
    assert (Hpk : 0 < 2 ^ k) by (apply Z.pow_pos_nonneg; lia).
    assert (E : 2 ^ e = 2 ^ (e - k) * 2 ^ k).
    { rewrite <- Z.pow_add_r by lia. f_equal. lia. }
    rewrite E.
    replace (m * (2 ^ (e - k) * 2 ^ k) * D) with (m * 2 ^ (e - k) * (D * 2 ^ k)) by ring.
    rewrite rne_exact by nia. ring.
Qed.

Lemma round53_nonneg (P D : Z) : 0 <= P -> 0 < D -> 0 <= Number.round53 P D.
Proof.
  intros HP HD. unfold Number.round53.
  destruct (shift_spec P D HP HD) as (K & _ & _).
  assert (0 < 2 ^ Number.shift P D) by (apply Z.pow_pos_nonneg; lia).
  pose proof (rne_nonneg P (D * 2 ^ Number.shift P D) HP ltac:(nia)). nia.
Qed.

Lemma round53_zero (D : Z) : 0 < D -> Number.round53 0 D = 0.
Proof.
  intros HD. pose proof (round53_exact 0 0 D ltac:(lia) ltac:(lia) HD) as H.
  rewrite !Z.mul_0_l in H. exact H.
Qed.

(** A magnitude of at least one unit does not round to zero. *)
Lemma round53_pos (P D : Z) : 0 < D -> D <= P -> 1 <= Number.round53 P D.
Proof.
  intros HD HP.
  pose proof (round53_exact 1 0 D ltac:(lia) ltac:(lia) HD) as H.
  rewrite Z.pow_0_r, !Z.mul_1_l in H. rewrite <- H.
  apply round53_mono; nia.
Qed.

(** Rounding is odd. *)
Lemma limit_pos : 0 < Number.limit.
Proof. vm_compute. reflexivity. Qed.

Lemma round_opp (P D : Z) :
  0 < D -> Number.round (- P) D = Number.neg (Number.round P D).
Proof.
  intros HD. unfold Number.round. rewrite Z.abs_opp.
  destruct (Z.eq_dec P 0) as [->|HP].
  - change (Z.abs 0) with 0. rewrite round53_zero by exact HD.
    pose proof limit_pos.
    destruct (Z.leb_spec Number.limit 0); [lia|reflexivity].
  - destruct (Number.limit <=? Number.round53 (Z.abs P) D); cbn [Number.neg].
    + f_equal. destruct (Z.ltb_spec P 0), (Z.ltb_spec (- P) 0); (reflexivity || lia).
    + f_equal. rewrite Z.sgn_opp. ring.
Qed.

Lemma round_nonneg_form (P D : Z) :
  0 <= P -> 0 < D ->
  Number.round P D =
    if Number.limit <=? Number.round53 P D then Inf false
    else Fin (Number.round53 P D).
Proof.
  intros HP HD. unfold Number.round. rewrite Z.abs_eq by exact HP.
  destruct (Number.limit <=? Number.round53 P D).
  - f_equal. apply Z.ltb_ge. exact HP.
  - f_equal. destruct (Z.eq_dec P 0) as [->|H0].
    + rewrite round53_zero by exact HD. reflexivity.
    + rewrite Z.sgn_pos by lia. ring.
Qed.

Lemma leb_neg (x y : number) :
  Number.leb (Number.neg y) (Number.neg x) = Number.leb x y.
Proof.
  destruct x as [|[|]|a], y as [|[|]|b]; unfold Number.leb;
    cbn [Number.neg negb orb]; try reflexivity.
  destruct (Z.leb_spec (- b) (- a)), (Z.leb_spec a b); (reflexivity || lia).
Qed.

Lemma round_mono_nonneg (P1 D1 P2 D2 : Z) :
  0 <= P1 -> 0 < D1 -> 0 < D2 -> P1 * D2 <= P2 * D1 ->
  Number.leb (Number.round P1 D1) (Number.round P2 D2) = true.
Proof.
  intros HP H1 H2 Hle. assert (HP2 : 0 <= P2) by nia.
  pose proof (round53_mono P1 D1 P2 D2 HP H1 H2 Hle) as Hm.
  rewrite !round_nonneg_form by assumption.
  destruct (Z.leb_spec Number.limit (Number.round53 P1 D1)),
           (Z.leb_spec Number.limit (Number.round53 P2 D2));
    unfold Number.leb; try reflexivity; [lia|].
  apply Z.leb_le. exact Hm.
Qed.

Lemma round_nonneg (P D : Z) :
  0 <= P -> 0 < D -> Number.leb Number.zero (Number.round P D) = true.
Proof.
  intros HP HD. rewrite round_nonneg_form by assumption.
  pose proof (round53_nonneg P D HP HD).
  destruct (Number.limit <=? Number.round53 P D); unfold Number.leb, Number.zero;
    [reflexivity|]. apply Z.leb_le. assumption.
Qed.

Lemma leb_trans (x y z : number) :
  Number.leb x y = true -> Number.leb y z = true -> Number.leb x z = true.
Proof.
  destruct x as [|[|]|a], y as [|[|]|b], z as [|[|]|c]; unfold Number.leb;
    cbn [negb orb]; try discriminate; try reflexivity.
  rewrite !Z.leb_le. lia.
Qed.

Lemma round_of_negative (P D : Z) :
  0 < D -> Number.round P D = Number.neg (Number.round (- P) D).
Proof.
  intros HD. rewrite <- round_opp by exact HD. f_equal. lia.
Qed.

(** [round] is monotone in the exact quotient. *)
Lemma round_mono (P1 D1 P2 D2 : Z) :
  0 < D1 -> 0 < D2 -> P1 * D2 <= P2 * D1 ->
  Number.leb (Number.round P1 D1) (Number.round P2 D2) = true.
Proof.
  intros H1 H2 Hle.
  destruct (Z_le_gt_dec 0 P1) as [HP1|HP1].
  - apply round_mono_nonneg; assumption.
  - rewrite (round_of_negative P1 D1 H1).
    destruct (Z_le_gt_dec 0 P2) as [HP2|HP2].
    + apply leb_trans with (y := Number.zero); [|apply round_nonneg; assumption].
      change Number.zero with (Number.neg Number.zero). rewrite leb_neg.
      apply round_nonneg; lia.
    + rewrite (round_of_negative P2 D2 H2), leb_neg.
      apply round_mono_nonneg; lia.
Qed.

End Rounding.

(** * Bounds of the scoring arithmetic *)

(** [x] lies in [[0, 1]]. *)
Definition inUnit (x : number) : Prop :=
  Number.leb Number.zero x = true /\ Number.leb x one = true.

(** [x] is not [NaN] and not below zero. *)
Definition nonneg (x : number) : Prop := Number.leb Number.zero x = true.

Lemma scale_pos : 0 < Number.scale.
Proof. vm_compute. reflexivity. Qed.

Lemma one_eq : one = Fin Number.scale.
Proof. vm_compute. reflexivity. Qed.

Lemma thousand_eq : thousand = Fin (1000 * Number.scale).
Proof. vm_compute. reflexivity. Qed.

Lemma inUnit_Fin (x : number) :
  inUnit x -> exists a, x = Fin a /\ 0 <= a <= Number.scale.
Proof.
  unfold inUnit. rewrite one_eq.
  destruct x as [|[|]|a]; unfold Number.leb, Number.zero; cbn [negb];
    intros [H1 H2]; try discriminate.
  exists a. split; [reflexivity|]. apply Z.leb_le in H1, H2. lia.
Qed.

Lemma Fin_inUnit (a : Z) : 0 <= a <= Number.scale -> inUnit (Fin a).
Proof.
  intros H. unfold inUnit. rewrite one_eq. unfold Number.leb, Number.zero.
  rewrite !(proj2 (Z.leb_le _ _)) by lia. auto.
Qed.

Lemma clamp_isNaN (x : number) :
  Number.isNaN (Number.max Number.zero (Number.min one x)) = Number.isNaN x.
Proof.
  rewrite one_eq. destruct x as [|[|]|a]; try reflexivity.
  unfold Number.min, Number.max, Number.leb, Number.zero.
  repeat match goal with |- context [?u <=? ?v] => destruct (u <=? v) end;
    reflexivity.
Qed.

Lemma clamp_inUnit (x : number) :
  Number.isNaN x = false -> inUnit (Number.max Number.zero (Number.min one x)).
Proof.
  pose proof scale_pos as Hs.
  rewrite one_eq. destruct x as [|[|]|a]; [discriminate| | |]; intros _.
  - unfold Number.min, Number.max, Number.leb, Number.zero. cbn [negb orb].
    apply Fin_inUnit. lia.
  - unfold Number.min, Number.max, Number.leb, Number.zero. cbn [negb orb].
    destruct (Z.leb_spec Number.scale 0); [lia|]. apply Fin_inUnit. lia.
  - unfold Number.min, Number.max, Number.leb, Number.zero.
    destruct (Z.leb_spec Number.scale a).
    + destruct (Z.leb_spec Number.scale 0); [lia|]. apply Fin_inUnit. lia.
    + destruct (Z.leb_spec a 0); apply Fin_inUnit; lia.
Qed.

Lemma sub_one_inUnit (r : number) : inUnit r -> inUnit (Number.sub one r).
Proof.
  intros H. destruct (inUnit_Fin r H) as (a & -> & Ha).
  pose proof scale_pos as Hs.
  split.
  - rewrite one_eq. unfold Number.sub, Number.add. cbn [Number.neg].
    apply Rounding.round_nonneg; lia.
  - rewrite one_eq at 1. unfold Number.sub, Number.add. cbn [Number.neg].
    unfold one, Number.of_Z. apply Rounding.round_mono; lia.
Qed.

(** The value that [normalize] clamps (lines 93-98). *)
Definition position (raw lo hi : number) : number :=
  let rangeWidth := Number.sub hi lo in
  if Number.gtb rangeWidth epsilon then Number.div (Number.sub raw lo) rangeWidth
  else if Number.geb raw lo then half
  else Number.zero.

Lemma normalize_position (raw lo hi : number) (higher : bool) :
  normalize raw lo hi higher =
    let clamped := Number.max Number.zero (Number.min one (position raw lo hi)) in
    if higher then clamped else Number.sub one clamped.
Proof. unfold normalize, position. destruct higher; reflexivity. Qed.

Lemma sub_one_isNaN (r : number) :
  Number.isNaN r = false -> inUnit r -> Number.isNaN (Number.sub one r) = false.
Proof.
  intros _ H. destruct (sub_one_inUnit r H) as [H0 _].
  destruct (Number.sub one r); [discriminate|reflexivity|reflexivity].
Qed.

Lemma normalize_inUnit (raw lo hi : number) (higher : bool) :
  Number.isNaN (position raw lo hi) = false ->
  inUnit (normalize raw lo hi higher).
Proof.
  intros H. rewrite normalize_position. cbv zeta.
  pose proof (clamp_inUnit _ H) as Hc.
  destruct higher; [exact Hc | apply sub_one_inUnit; exact Hc].
Qed.

Lemma normalize_isNaN (raw lo hi : number) (higher : bool) :
  Number.isNaN (normalize raw lo hi higher) = Number.isNaN (position raw lo hi).
Proof.
  destruct (Number.isNaN (position raw lo hi)) eqn:H.
  - rewrite normalize_position. cbv zeta.
    destruct (position raw lo hi); try discriminate.
    destruct higher; reflexivity.
  - destruct (normalize_inUnit raw lo hi higher H) as [H0 _].
    destruct (normalize raw lo hi higher); [discriminate|reflexivity|reflexivity].
Qed.

(** *** Products, sums and quotients *)

Lemma mul_unit_weight (n : number) (b : Z) :
  inUnit n -> 0 < b -> Number.representable (Fin b) = true ->
  nonneg (Number.mul n (Fin b)) /\ Number.leb (Number.mul n (Fin b)) (Fin b) = true.
Proof.
  intros Hn Hb Hr. destruct (inUnit_Fin n Hn) as (a & -> & Ha).
  pose proof scale_pos as Hs. unfold Number.mul. split.
  - apply Rounding.round_nonneg; nia.
  - unfold Number.representable in Hr.
    destruct (Number.round b 1) as [| |m] eqn:E; try discriminate.
    apply Z.eqb_eq in Hr. subst m. rewrite <- E.
    apply Rounding.round_mono; nia.
Qed.

Lemma nonneg_cases (x : number) :
  nonneg x -> x = Inf false \/ exists a, x = Fin a /\ 0 <= a.
Proof.
  unfold nonneg. destruct x as [|[|]|a]; unfold Number.leb, Number.zero;
    cbn [negb]; try discriminate; intros H; [left; reflexivity|].
  right. exists a. split; [reflexivity|]. apply Z.leb_le. exact H.
Qed.

Lemma add_nonneg (x y : number) : nonneg x -> nonneg y -> nonneg (Number.add x y).
Proof.
  intros Hx Hy.
  destruct (nonneg_cases x Hx) as [->|(a & -> & Ha)],
           (nonneg_cases y Hy) as [->|(b & -> & Hb)]; try reflexivity.
  unfold Number.add. apply Rounding.round_nonneg; lia.
Qed.

Lemma leb_Inf_top (x : number) : nonneg x -> Number.leb x (Inf false) = true.
Proof.
  intros H. destruct (nonneg_cases x H) as [->|(a & -> & _)]; reflexivity.
Qed.

Lemma add_mono (x y u v : number) :
  nonneg x -> nonneg u -> Number.leb x y = true -> Number.leb u v = true ->
  Number.leb (Number.add x u) (Number.add y v) = true.
Proof.
  intros Hx Hu Hxy Huv.
  assert (Hy : nonneg y) by (exact (Rounding.leb_trans _ _ _ Hx Hxy)).
  assert (Hv : nonneg v) by (exact (Rounding.leb_trans _ _ _ Hu Huv)).
  pose proof (add_nonneg x u Hx Hu) as Hxu.
  destruct (nonneg_cases y Hy) as [->|(b & -> & Hb)].
  { destruct (nonneg_cases v Hv) as [->|(d & -> & _)];
      unfold Number.add at 2; cbn [Bool.eqb]; apply leb_Inf_top; exact Hxu. }
  destruct (nonneg_cases v Hv) as [->|(d & -> & Hd)].
  { unfold Number.add at 2. apply leb_Inf_top. exact Hxu. }
  destruct (nonneg_cases x Hx) as [->|(a & -> & Ha)]; [discriminate|].
  destruct (nonneg_cases u Hu) as [->|(c & -> & Hc)]; [discriminate|].
  unfold Number.leb in Hxy, Huv. apply Z.leb_le in Hxy, Huv.
  unfold Number.add. apply Rounding.round_mono; lia.
Qed.

Lemma round_pos (P : Z) : 1 <= P -> Number.gtb (Number.round P 1) Number.zero = true.
Proof.
  intros HP. rewrite Rounding.round_nonneg_form by lia.
  pose proof (Rounding.round53_pos P 1 ltac:(lia) HP) as Hm.
  destruct (Number.limit <=? Number.round53 P 1);
    unfold Number.gtb, Number.ltb, Number.zero; [reflexivity|].
  apply Z.ltb_lt. lia.
Qed.

Lemma add_pos (x : number) (b : Z) :
  nonneg x -> 0 < b -> Number.gtb (Number.add x (Fin b)) Number.zero = true.
Proof.
  intros Hx Hb. destruct (nonneg_cases x Hx) as [->|(a & -> & Ha)]; [reflexivity|].
  unfold Number.add. apply round_pos. lia.
Qed.

Lemma div_inUnit (s : number) (b : Z) :
  nonneg s -> Number.leb s (Fin b) = true -> 0 < b ->
  inUnit (Number.div s (Fin b)).
Proof.
  intros Hs Hle Hb. pose proof scale_pos as Hsc.
  destruct (nonneg_cases s Hs) as [->|(a & -> & Ha)]; [discriminate Hle|].
  unfold Number.leb in Hle. apply Z.leb_le in Hle.
  unfold Number.div. destruct (Z.eqb_spec b 0); [lia|].
  rewrite Z.sgn_pos, Z.abs_eq, Z.mul_1_l by lia. split.
  - apply Rounding.round_nonneg; nia.
  - unfold one, Number.of_Z. apply Rounding.round_mono; nia.
Qed.

Lemma mul_thousand_range (q : number) :
  inUnit q ->
  exists n, Number.mul q thousand = Fin n /\ 0 <= n <= 1000 * Number.scale.
Proof.
  intros Hq. destruct (inUnit_Fin q Hq) as (a & -> & Ha).
  pose proof scale_pos as Hsc.
  assert (Hup : Number.leb (Number.mul (Fin a) thousand) thousand = true).
  { rewrite thousand_eq at 1. unfold Number.mul, thousand, Number.of_Z.
    apply Rounding.round_mono; nia. }
  assert (Hlo : nonneg (Number.mul (Fin a) thousand)).
  { rewrite thousand_eq. unfold Number.mul. apply Rounding.round_nonneg; nia. }
  rewrite thousand_eq in Hup at 2.
  destruct (nonneg_cases _ Hlo) as [E|(n & E & Hn)]; rewrite E in Hup.
  - discriminate Hup.
  - exists n. split; [exact E|]. unfold Number.leb in Hup.
    apply Z.leb_le in Hup. lia.
Qed.

Lemma Math_round_range (n : Z) :
  0 <= n <= 1000 * Number.scale ->
  exists z, 0 <= z <= 1000 /\ Number.Math_round (Fin n) = Fin (z * Number.scale).
Proof.
  intros Hn. pose proof scale_pos as Hsc.
  exists ((2 * n + Number.scale) / (2 * Number.scale)).
  split; [|reflexivity]. split.
  - apply Z.div_pos; lia.
  - apply Z.lt_succ_r. apply Z.div_lt_upper_bound; lia.
Qed.

(** The score formula stays in [[0, 1000]] when the weighted total is between
    zero and a positive, finite weight total. *)
Lemma score_range (s : number) (b : Z) :
  nonneg s -> Number.leb s (Fin b) = true -> 0 < b ->
  exists z, 0 <= z <= 1000 /\
    Number.Math_round (Number.mul (Number.div s (Fin b)) thousand)
    = Fin (z * Number.scale).
Proof.
  intros Hs Hle Hb.
  destruct (mul_thousand_range _ (div_inUnit s b Hs Hle Hb)) as (n & -> & Hn).
  apply Math_round_range. exact Hn.
Qed.

(** ** The two running totals *)

Section Totals.

Variable company : Company.
Variable fullRanges : gmap string (number * number).
Variable metricConfigs : gmap string MetricConfig.
Variable currentUserTier : string.

Local Abbreviation step := (scoreMetric company fullRanges metricConfigs currentUserTier).
Local Abbreviation comp := (componentFor company fullRanges metricConfigs currentUserTier).
Local Abbreviation gates := (gatesPassed company fullRanges metricConfigs currentUserTier).

(** The entries of the weight list that reach line 105: not skipped and
    through every gate. *)
Definition counted (e : string * number) : bool :=
  negb (Number.leb (snd e) Number.zero) && gates (fst e).

Definition includedEntries (ws : list (string * number)) : list (string * number) :=
  List.filter counted ws.

(** The sums of the weighted contributions and of the weights of the included
    entries, added up in the order of the loop. *)
Definition weightedTotal (ws : list (string * number)) : number :=
  fold_left Number.add
    (map (fun e => weightedScore (comp (fst e) (snd e))) (includedEntries ws))
    Number.zero.

Definition weightTotal (ws : list (string * number)) : number :=
  fold_left Number.add (map snd (includedEntries ws)) Number.zero.

Lemma step_counted (st : Totals) (k : string) (w : number) :
  counted (k, w) = true ->
  totalWeightedScore (step st (k, w))
    = Number.add (totalWeightedScore st) (weightedScore (comp k w))
  /\ totalEffectiveWeight (step st (k, w)) = Number.add (totalEffectiveWeight st) w.
Proof.
  unfold counted. cbn [fst snd]. intros H. apply andb_true_iff in H.
  destruct H as [Hw Hg]. apply negb_true_iff in Hw.
  rewrite scoreMetric_component by exact Hw. cbv zeta.
  rewrite componentFor_included, Hg. split; reflexivity.
Qed.

Lemma step_not_counted (st : Totals) (k : string) (w : number) :
  counted (k, w) = false ->
  totalWeightedScore (step st (k, w)) = totalWeightedScore st
  /\ totalEffectiveWeight (step st (k, w)) = totalEffectiveWeight st.
Proof.
  unfold counted. cbn [fst snd]. intros H.
  destruct (Number.leb w Number.zero) eqn:Hw.
  - rewrite scoreMetric_skip by exact Hw. split; reflexivity.
  - cbn [negb andb] in H. rewrite scoreMetric_component by exact Hw. cbv zeta.
    rewrite componentFor_included, H. split; reflexivity.
Qed.

Lemma fold_totals (ws : list (string * number)) (st : Totals) :
  totalWeightedScore (fold_left step ws st)
    = fold_left Number.add
        (map (fun e => weightedScore (comp (fst e) (snd e))) (includedEntries ws))
        (totalWeightedScore st)
  /\ totalEffectiveWeight (fold_left step ws st)
    = fold_left Number.add (map snd (includedEntries ws)) (totalEffectiveWeight st).
Proof.
  revert st. induction ws as [|[k w] ws IH]; intros st; [split; reflexivity|].
  cbn [fold_left]. unfold includedEntries. cbn [List.filter].
  destruct (IH (step st (k, w))) as [IH1 IH2]. rewrite IH1, IH2.
  destruct (counted (k, w)) eqn:Hc.
  - destruct (step_counted st k w Hc) as [-> ->]. split; reflexivity.
  - destruct (step_not_counted st k w Hc) as [-> ->]. split; reflexivity.
Qed.

Lemma scoreCompany_score (ws : list (string * number)) :
  score (scoreCompany ws fullRanges metricConfigs currentUserTier company) =
    if Number.gtb (weightTotal ws) Number.zero then
      Some (Number.Math_round
              (Number.mul (Number.div (weightedTotal ws) (weightTotal ws)) thousand))
    else None.
Proof.
  unfold scoreCompany, finalScore. cbn [score].
  destruct (fold_totals ws initialTotals) as [-> ->]. reflexivity.
Qed.

End Totals.

(** ** Sums of bounded contributions *)

Lemma fold_add_le (l : list (number * number)) (a b : number) :
  (forall p, In p l -> nonneg (fst p) /\ Number.leb (fst p) (snd p) = true) ->
  nonneg a -> Number.leb a b = true ->
  nonneg (fold_left Number.add (map fst l) a)
  /\ Number.leb (fold_left Number.add (map fst l) a)
                (fold_left Number.add (map snd l) b) = true.
Proof.
  revert a b. induction l as [|[c w] l IH]; intros a b H Ha Hab; [split; assumption|].
  cbn [map fold_left fst snd].
  destruct (H (c, w) (or_introl eq_refl)) as [Hc Hcw]. cbn [fst snd] in Hc, Hcw.
  apply IH.
  - intros p Hp. apply H. right. exact Hp.
  - apply add_nonneg; assumption.
  - apply add_mono; assumption.
Qed.

Lemma gtb_zero_nonneg (x : number) : Number.gtb x Number.zero = true -> nonneg x.
Proof.
  destruct x as [|[|]|a]; unfold Number.gtb, Number.ltb, nonneg, Number.leb,
    Number.zero; cbn [negb]; intros H; try discriminate H; try reflexivity.
  apply Z.ltb_lt in H. apply Z.leb_le. lia.
Qed.

Lemma fold_add_pos (l : list number) (b : number) :
  (forall w, In w l -> exists z, w = Fin z /\ 0 < z) ->
  Number.gtb b Number.zero = true ->
  Number.gtb (fold_left Number.add l b) Number.zero = true.
Proof.
  revert b. induction l as [|w l IH]; intros b H Hb; [exact Hb|].
  cbn [fold_left]. apply IH.
  - intros w' Hw'. apply H. right. exact Hw'.
  - destruct (H w (or_introl eq_refl)) as (z & -> & Hz).
    apply add_pos; [apply gtb_zero_nonneg; exact Hb | exact Hz].
Qed.

Lemma fold_add_pos_nonempty (l : list number) :
  (forall w, In w l -> exists z, w = Fin z /\ 0 < z) ->
  l <> [] -> Number.gtb (fold_left Number.add l Number.zero) Number.zero = true.
Proof.
  destruct l as [|w l]; intros H Hne; [congruence|].
  cbn [fold_left]. apply fold_add_pos.
  - intros w' Hw'. apply H. right. exact Hw'.
  - destruct (H w (or_introl eq_refl)) as (z & -> & Hz).
    apply add_pos; [reflexivity | exact Hz].
Qed.

(** A weight that is a finite number and not [<= 0] is positive. *)
Lemma kept_weight_positive (w : number) :
  Number.isFinite w = true -> Number.leb w Number.zero = false ->
  exists z, w = Fin z /\ 0 < z.
Proof.
  destruct w as [| |z]; cbn [Number.isFinite]; intros H Hw; try discriminate H.
  exists z. split; [reflexivity|]. unfold Number.leb, Number.zero in Hw.
  apply Z.leb_gt in Hw. exact Hw.
Qed.

Lemma componentFor_contribution company fullRanges metricConfigs tier0 k w :
  gatesPassed company fullRanges metricConfigs tier0 k = true ->
  exists n,
    normalizedValue (componentFor company fullRanges metricConfigs tier0 k w) = Some n
    /\ weightedScore (componentFor company fullRanges metricConfigs tier0 k w)
       = Number.mul n w
    /\ (Number.isNaN n = false -> inUnit n).
Proof.
  unfold gatesPassed, configFound, tierGranted, valueValid, componentFor.
  destruct (metricConfigs !! k) as [cfg|]; [|intros H; discriminate H].
  rewrite bool_decide_eq_true_2 by eauto.
  destruct (accessGranted tier0 (tier cfg)); [|intros H; discriminate H].
  cbn [negb andb].
  destruct (getNestedValue company (nested_path cfg)) as [[| |raw]|];
    try (intros H; discriminate H).
  destruct (fullRanges !! k) as [[[| |lo] [| |hi]]|];
    try (intros H; discriminate H).
  intros _. eexists. split; [reflexivity|]. split; [reflexivity|].
  intros Hn. apply normalize_inUnit. rewrite <- (normalize_isNaN _ _ _ (higherIsBetter cfg)).
  exact Hn.
Qed.

Lemma includedEntries_breakdown company fullRanges metricConfigs tier0 ws :
  includedEntries company fullRanges metricConfigs tier0 ws = [] <->
  forall k c,
    breakdown (scoreCompany ws fullRanges metricConfigs tier0 company) !! k = Some c ->
    isIncluded c = false.
Proof.
  split.
  - intros Hnil k c. rewrite scoreCompany_breakdown.
    destruct (activeWeight ws k) as [w|] eqn:Hw; [|intros H; discriminate H].
    intros [= <-]. rewrite componentFor_included.
    destruct (gatesPassed company fullRanges metricConfigs tier0 k) eqn:Hg;
      [exfalso|reflexivity].
    apply activeWeight_In in Hw. destruct Hw as [Hin Hle].
    assert (Hc : In (k, w) (includedEntries company fullRanges metricConfigs tier0 ws)).
    { apply List.filter_In. split; [exact Hin|]. unfold counted. cbn [fst snd].
      rewrite Hle, Hg. reflexivity. }
    rewrite Hnil in Hc. exact Hc.
  - intros H.
    destruct (includedEntries company fullRanges metricConfigs tier0 ws)
      as [|[k w] l] eqn:E; [reflexivity|exfalso].
    assert (Hc : In (k, w) (includedEntries company fullRanges metricConfigs tier0 ws))
      by (rewrite E; left; reflexivity).
    apply List.filter_In in Hc. destruct Hc as [Hin Hc].
    unfold counted in Hc. cbn [fst snd] in Hc. apply andb_true_iff in Hc.
    destruct Hc as [Hle Hg]. apply negb_true_iff in Hle.
    destruct (In_activeWeight _ _ _ Hin Hle) as [w0 Hw0].
    specialize (H k (componentFor company fullRanges metricConfigs tier0 k w0)).
    rewrite scoreCompany_breakdown, Hw0 in H. specialize (H eq_refl).
    rewrite componentFor_included, Hg in H. discriminate H.
Qed.

Lemma scoreCompany_range company fullRanges metricConfigs tier0 ws :
  (forall k w, In (k, w) ws ->
     Number.isFinite w = true /\ Number.representable w = true) ->
  (forall k w, In (k, w) ws ->
     normalizedValue (componentFor company fullRanges metricConfigs tier0 k w)
     <> Some NaN) ->
  Number.isFinite (weightTotal company fullRanges metricConfigs tier0 ws) = true ->
  let r := scoreCompany ws fullRanges metricConfigs tier0 company in
  (score r = None <->
     includedEntries company fullRanges metricConfigs tier0 ws = [])
  /\ (forall s, score r = Some s ->
        exists z, 0 <= z <= 1000 /\ s = Fin (z * Number.scale)).
Proof.
  intros Hw Hn Hfin r. subst r. rewrite scoreCompany_score.
  set (L := includedEntries company fullRanges metricConfigs tier0 ws).
  assert (HL : forall k w, In (k, w) L ->
            In (k, w) ws /\ Number.leb w Number.zero = false
            /\ gatesPassed company fullRanges metricConfigs tier0 k = true).
  { intros k w H. apply List.filter_In in H. destruct H as [Hin Hc].
    unfold counted in Hc. cbn [fst snd] in Hc. apply andb_true_iff in Hc.
    destruct Hc as [Hle Hg]. apply negb_true_iff in Hle. auto. }
  assert (Hpos : forall w, In w (map snd L) -> exists z, w = Fin z /\ 0 < z).
  { intros w H. apply in_map_iff in H. destruct H as ([k w'] & <- & Hin).
    cbn [snd]. destruct (HL k w' Hin) as (Hin' & Hle & _).
    apply kept_weight_positive; [apply (Hw k w' Hin') | exact Hle]. }
  split.
  - unfold weightTotal. fold L. destruct L as [|e L'] eqn:EL.
    + cbn [map fold_left]. unfold Number.gtb, Number.ltb, Number.zero.
      rewrite Z.ltb_irrefl. split; reflexivity.
    + rewrite fold_add_pos_nonempty; [|exact Hpos|discriminate].
      split; intros H; discriminate H.
  - intros s.
    destruct (Number.gtb (weightTotal company fullRanges metricConfigs tier0 ws)
                Number.zero) eqn:Hgt; [|intros H; discriminate H].
    intros [= <-].
    destruct (weightTotal company fullRanges metricConfigs tier0 ws) as [| |b] eqn:EW;
      try discriminate Hfin.
    assert (Hb : 0 < b).
    { unfold Number.gtb, Number.ltb, Number.zero in Hgt. apply Z.ltb_lt. exact Hgt. }
    assert (Hle : nonneg (weightedTotal company fullRanges metricConfigs tier0 ws)
                  /\ Number.leb (weightedTotal company fullRanges metricConfigs tier0 ws)
                       (Fin b) = true).
    { rewrite <- EW. unfold weightedTotal, weightTotal. fold L.
      pose proof (fold_add_le
        (map (fun e => (weightedScore
                          (componentFor company fullRanges metricConfigs tier0
                             (fst e) (snd e)), snd e)) L)
        Number.zero Number.zero) as F.
      rewrite !map_map in F. cbn [fst snd] in F. apply F; [|reflexivity|reflexivity].
      intros p Hp. apply in_map_iff in Hp. destruct Hp as ([k w] & <- & Hin).
      cbn [fst snd]. destruct (HL k w Hin) as (Hin' & Hle & Hg).
      destruct (componentFor_contribution company fullRanges metricConfigs tier0 k w Hg)
        as (n & En & -> & Hunit).
      destruct (kept_weight_positive w (proj1 (Hw k w Hin')) Hle) as (z & -> & Hz).
      apply mul_unit_weight; [|exact Hz|exact (proj2 (Hw k _ Hin'))].
      apply Hunit. pose proof (Hn k _ Hin') as Hnn. rewrite En in Hnn.
      destruct n; [congruence|reflexivity|reflexivity]. }
    destruct Hle as [H0 H1]. apply score_range; assumption.
Qed.

(** ** Sample inputs at the edge of the number range *)

Module Overflow.

(** The literal [1e308]. *)
Definition huge : number := Number.literal (10 ^ 308) 1.

Definition configs : gmap string MetricConfig :=
  <["revenue" := mkMetricConfig "Revenue" "free" "financials.revenue_value" true]> ∅.

Definition ranges : gmap string (number * number) :=
  <["revenue" := (Number.neg huge, huge)]> ∅.

Definition giant : Company :=
  mkCompany 1 "Giant" (<["financials.revenue_value" := huge]> ∅).

Definition weights : list (string * number) := [("revenue", Number.of_Z 100)].

End Overflow.

(** ** Polarity inversion *)

(** C6 (as amended): when the position [(value - min) / width] is not [NaN],
    the lower-is-better value is one minus the higher-is-better value and
    both lie in [[0, 1]]. *)
Theorem polarity_inversion (raw lo hi : number) :
  Number.isNaN (position raw lo hi) = false ->
  normalize raw lo hi false = Number.sub one (normalize raw lo hi true)
  /\ inUnit (normalize raw lo hi true)
  /\ inUnit (normalize raw lo hi false).
Proof.
  intros H. split; [reflexivity|].
  split; apply normalize_inUnit; exact H.
Qed.

Lemma polarity_inversion_witness :
  normalize (Number.of_Z 25) (Number.of_Z 0) (Number.of_Z 100) false
  = Number.sub one (normalize (Number.of_Z 25) (Number.of_Z 0) (Number.of_Z 100) true)
  /\ inUnit (normalize (Number.of_Z 25) (Number.of_Z 0) (Number.of_Z 100) true)
  /\ inUnit (normalize (Number.of_Z 25) (Number.of_Z 0) (Number.of_Z 100) false).
Proof.
  refine (polarity_inversion (Number.of_Z 25) (Number.of_Z 0) (Number.of_Z 100) _).
  vm_compute. reflexivity.
Defined.

(** The claim fails for a finite value and a range with finite bounds: with
    the value [1e308] in the range [[-1e308, 1e308]] both [value - min] and
    [max - min] overflow, their quotient is [NaN], and the clamp keeps it. *)
Lemma polarity_overflow_counterexample :
  Number.isFinite Overflow.huge = true
  /\ Number.representable Overflow.huge = true
  /\ validRange (Some (Number.neg Overflow.huge, Overflow.huge)) = true
  /\ normalize Overflow.huge (Number.neg Overflow.huge) Overflow.huge true = NaN
  /\ ~ inUnit (normalize Overflow.huge (Number.neg Overflow.huge) Overflow.huge true).
Proof.
  assert (E : normalize Overflow.huge (Number.neg Overflow.huge) Overflow.huge true = NaN)
    by (vm_compute; reflexivity).
  split; [vm_compute; reflexivity|].
  split; [vm_compute; reflexivity|].
  split; [vm_compute; reflexivity|].
  split; [exact E|].
  rewrite E. intros [H _]. discriminate H.
Qed.

(** ** The final score *)

(** C1 (as amended): when every weight is a finite binary64 number, no
    normalized value is [NaN] and the total of the included weights is
    finite, the score of a result is [null] exactly when no component of its
    breakdown is included; otherwise it is [Math.round] of a thousand times
    the quotient of the two totals, an integer of [[0, 1000]]. *)
Theorem score_null_or_in_range
    (companies : list Company) (weights : list (string * number))
    (fullRanges : gmap string (number * number))
    (metricConfigs : gmap string MetricConfig) (tier0 : string)
    (r : CompanyScore) :
  (forall k w, In (k, w) weights ->
     Number.isFinite w = true /\ Number.representable w = true) ->
  (forall company k w, In company companies -> In (k, w) weights ->
     normalizedValue (componentFor company fullRanges metricConfigs tier0 k w)
     <> Some NaN) ->
  (forall company, In company companies ->
     Number.isFinite (weightTotal company fullRanges metricConfigs tier0 weights)
     = true) ->
  In r (calculateScores companies weights fullRanges metricConfigs tier0) ->
  exists company, In company companies /\ companyId r = company_id company /\
    (score r = None <->
       forall k c, breakdown r !! k = Some c -> isIncluded c = false)
    /\ (forall s, score r = Some s ->
          s = Number.Math_round
                (Number.mul
                   (Number.div
                      (weightedTotal company fullRanges metricConfigs tier0 weights)
                      (weightTotal company fullRanges metricConfigs tier0 weights))
                   thousand)
          /\ exists z, 0 <= z <= 1000 /\ s = Fin (z * Number.scale)).
Proof.
  intros Hw Hn Hfin Hr. apply calculateScores_In in Hr.
  destruct Hr as (company & Hc & ->). exists company.
  split; [exact Hc|]. split; [reflexivity|].
  destruct (scoreCompany_range company fullRanges metricConfigs tier0 weights Hw
              (fun k w => Hn company k w Hc) (Hfin company Hc)) as [Hnull Hrange].
  split.
  - rewrite Hnull. apply includedEntries_breakdown.
  - intros s Hs. split; [|exact (Hrange s Hs)].
    rewrite scoreCompany_score in Hs.
    destruct (Number.gtb _ Number.zero); [|discriminate Hs].
    injection Hs as <-. reflexivity.
Qed.

(** The claim fails within its own domain: one company, one free metric of
    weight 100 with the finite value [1e308] in the finite range
    [[-1e308, 1e308]].  The metric is included and the score is [NaN], which
    is neither [null] nor an integer of [[0, 1000]]. *)
Lemma score_overflow_counterexample :
  exists r,
    calculateScores [Overflow.giant] Overflow.weights Overflow.ranges
      Overflow.configs "free" = [r]
    /\ (exists c, breakdown r !! "revenue" = Some c /\ isIncluded c = true)
    /\ score r = Some NaN
    /\ ~ (score r = None
          \/ exists z, 0 <= z <= 1000 /\ score r = Some (Fin (z * Number.scale))).
Proof.
  eexists. split; [reflexivity|].
  assert (E : score (scoreCompany Overflow.weights Overflow.ranges Overflow.configs
                       "free" Overflow.giant) = Some NaN) by (vm_compute; reflexivity).
  split; [|split; [exact E|]].
  - eexists. split; [vm_compute; reflexivity|reflexivity].
  - rewrite E. intros [H|(z & _ & H)]; discriminate H.
Qed.

Lemma score_null_or_in_range_witness :
  exists company, In company [Sample.acme] /\
    companyId (scoreCompany Sample.weights Sample.ranges Sample.configs "free"
                 Sample.acme) = company_id company /\
    (score (scoreCompany Sample.weights Sample.ranges Sample.configs "free"
              Sample.acme) = None <->
       forall k c,
         breakdown (scoreCompany Sample.weights Sample.ranges Sample.configs "free"
                      Sample.acme) !! k = Some c -> isIncluded c = false)
    /\ (forall s,
          score (scoreCompany Sample.weights Sample.ranges Sample.configs "free"
                   Sample.acme) = Some s ->
          s = Number.Math_round
                (Number.mul
                   (Number.div
                      (weightedTotal company Sample.ranges Sample.configs "free"
                         Sample.weights)
                      (weightTotal company Sample.ranges Sample.configs "free"
                         Sample.weights))
                   thousand)
          /\ exists z, 0 <= z <= 1000 /\ s = Fin (z * Number.scale)).
Proof.
  refine (score_null_or_in_range [Sample.acme] Sample.weights Sample.ranges
            Sample.configs "free" _ _ _ _ _).
  - intros k w Hin. unfold Sample.weights, In in Hin.
    destruct Hin as [E|[E|[E|[E|[E|[]]]]]];
      apply pair_equal_spec in E; destruct E as [<- <-];
      split; vm_compute; reflexivity.
  - intros company k w [<-|[]] Hin. unfold Sample.weights, In in Hin.
    destruct Hin as [E|[E|[E|[E|[E|[]]]]]];
      apply pair_equal_spec in E; destruct E as [<- <-];
      vm_compute; intros H; discriminate H.
  - intros company [<-|[]]. vm_compute. reflexivity.
  - left. reflexivity.
Defined.

(** ** Scores are never negative *)

(** [x] is [NaN] or not below zero. *)
Definition nanOrNonneg (x : number) : Prop := Number.isNaN x = true \/ nonneg x.

Lemma nanOrNonneg_cases (x : number) :
  nanOrNonneg x -> x = NaN \/ x = Inf false \/ exists a, x = Fin a /\ 0 <= a.
Proof.
  intros [H|H].
  - destruct x; try discriminate H. left. reflexivity.
  - right. apply nonneg_cases. exact H.
Qed.

Lemma add_nanOrNonneg (x y : number) :
  nanOrNonneg x -> nanOrNonneg y -> nanOrNonneg (Number.add x y).
Proof.
  intros Hx Hy.
  destruct (nanOrNonneg_cases x Hx) as [->|[->|(a & -> & Ha)]];
    destruct (nanOrNonneg_cases y Hy) as [->|[->|(b & -> & Hb)]];
    try (left; reflexivity); try (right; reflexivity).
  right. unfold Number.add. apply Rounding.round_nonneg; lia.
Qed.

(** A weight that passes the guard [weight <= 0] is [NaN] or positive. *)
Lemma kept_weight_cases (w : number) :
  Number.leb w Number.zero = false ->
  w = NaN \/ w = Inf false \/ exists b, w = Fin b /\ 0 < b.
Proof.
  destruct w as [|[|]|b]; unfold Number.leb, Number.zero; cbn [negb]; intros H;
    try discriminate H; auto.
  right. right. exists b. split; [reflexivity|]. apply Z.leb_gt. exact H.
Qed.

Lemma mul_nanOrNonneg (n w : number) :
  nanOrNonneg n -> Number.leb w Number.zero = false ->
  nanOrNonneg (Number.mul n w).
Proof.
  intros Hn Hw.
  destruct (nanOrNonneg_cases n Hn) as [->|[->|(a & -> & Ha)]];
    destruct (kept_weight_cases w Hw) as [->|[->|(b & -> & Hb)]];
    try (left; reflexivity); try (right; reflexivity).
  - unfold Number.mul. destruct (Z.eqb_spec b 0); [lia|].
    destruct (Z.ltb_spec b 0); [lia|]. right. reflexivity.
  - unfold Number.mul. destruct (Z.eqb_spec a 0); [left; reflexivity|].
    destruct (Z.ltb_spec a 0); [lia|]. right. reflexivity.
  - right. unfold Number.mul. pose proof scale_pos.
    apply Rounding.round_nonneg; nia.
Qed.

Lemma normalize_nanOrNonneg (raw lo hi : number) (higher : bool) :
  nanOrNonneg (normalize raw lo hi higher).
Proof.
  destruct (Number.isNaN (position raw lo hi)) eqn:H.
  - left. rewrite normalize_isNaN. exact H.
  - right. apply (normalize_inUnit raw lo hi higher H).
Qed.

Lemma div_nanOrNonneg (s w : number) :
  nanOrNonneg s -> Number.gtb w Number.zero = true ->
  nanOrNonneg (Number.div s w).
Proof.
  intros Hs Hw. pose proof scale_pos as Hsc.
  assert (Hw' : w = Inf false \/ exists b, w = Fin b /\ 0 < b).
  { destruct w as [|[|]|b]; unfold Number.gtb, Number.ltb, Number.zero in Hw;
      cbn [negb] in Hw; try discriminate Hw; auto.
    right. exists b. split; [reflexivity|]. apply Z.ltb_lt. exact Hw. }
  destruct (nanOrNonneg_cases s Hs) as [->|[->|(a & -> & Ha)]];
    destruct Hw' as [->|(b & -> & Hb)];
    try (left; reflexivity); try (right; reflexivity).
  - unfold Number.div. destruct (Z.ltb_spec b 0); [lia|]. right. reflexivity.
  - right. unfold Number.div. destruct (Z.eqb_spec b 0); [lia|].
    rewrite Z.sgn_pos, Z.abs_eq, Z.mul_1_l by lia.
    apply Rounding.round_nonneg; nia.
Qed.

Lemma finalScore_nanOrNonneg (s w : number) :
  nanOrNonneg s -> Number.gtb w Number.zero = true ->
  nanOrNonneg (Number.Math_round (Number.mul (Number.div s w) thousand)).
Proof.
  intros Hs Hw. pose proof scale_pos as Hsc.
  destruct (nanOrNonneg_cases _ (div_nanOrNonneg s w Hs Hw))
    as [->|[->|(a & -> & Ha)]]; rewrite thousand_eq.
  - left. reflexivity.
  - unfold Number.mul. destruct (Z.eqb_spec (1000 * Number.scale) 0); [lia|].
    destruct (Z.ltb_spec (1000 * Number.scale) 0); [lia|]. right. reflexivity.
  - unfold Number.mul.
    pose proof (Rounding.round_nonneg (a * (1000 * Number.scale)) Number.scale
                  ltac:(nia) Hsc) as Hr.
    destruct (nonneg_cases _ Hr) as [->|(n & -> & Hn)]; right; [reflexivity|].
    unfold nonneg, Number.Math_round, Number.leb, Number.zero. apply Z.leb_le.
    apply Z.mul_nonneg_nonneg; [|lia]. apply Z.div_pos; lia.
Qed.

Lemma fold_add_nanOrNonneg (l : list number) (a : number) :
  (forall x, In x l -> nanOrNonneg x) -> nanOrNonneg a ->
  nanOrNonneg (fold_left Number.add l a).
Proof.
  revert a. induction l as [|x l IH]; intros a H Ha; [exact Ha|].
  cbn [fold_left]. apply IH.
  - intros y Hy. apply H. right. exact Hy.
  - apply add_nanOrNonneg; [exact Ha|]. apply H. left. reflexivity.
Qed.

(** For every input, a score that is a number is [NaN] or not below zero. *)
Lemma score_nanOrNonneg company fullRanges metricConfigs tier0 ws s :
  score (scoreCompany ws fullRanges metricConfigs tier0 company) = Some s ->
  nanOrNonneg s.
Proof.
  rewrite scoreCompany_score.
  destruct (Number.gtb (weightTotal company fullRanges metricConfigs tier0 ws)
              Number.zero) eqn:Hgt; [|intros H; discriminate H].
  intros [= <-]. apply finalScore_nanOrNonneg; [|exact Hgt].
  unfold weightedTotal. apply fold_add_nanOrNonneg; [|right; reflexivity].
  intros x Hx. apply in_map_iff in Hx. destruct Hx as ([k w] & <- & Hin).
  cbn [fst snd]. apply List.filter_In in Hin. destruct Hin as [_ Hc].
  unfold counted in Hc. cbn [fst snd] in Hc. apply andb_true_iff in Hc.
  destruct Hc as [Hle Hg]. apply negb_true_iff in Hle.
  destruct (componentFor_contribution company fullRanges metricConfigs tier0 k w Hg)
    as (n & _ & -> & Hunit).
  apply mul_nanOrNonneg; [|exact Hle].
  destruct (Number.isNaN n) eqn:E; [left; exact E|right; apply Hunit; reflexivity].
Qed.

(** ** Ranking *)

(** The sign of a difference of two numbers that are not [NaN] tells their
    order. *)
Lemma sub_gtb_zero (a b : number) :
  Number.isNaN a = false -> Number.isNaN b = false ->
  Number.gtb (Number.sub b a) Number.zero = Number.ltb a b.
Proof.
  destruct a as [|[|]|x], b as [|[|]|y]; intros Ha Hb;
    try discriminate Ha; try discriminate Hb; try reflexivity.
  unfold Number.sub, Number.add. cbn [Number.neg].
  change (Number.ltb (Fin x) (Fin y)) with (x <? y).
  destruct (Z.ltb_spec x y) as [H|H].
  - apply round_pos. lia.
  - rewrite (Rounding.round_of_negative (y + - x) 1) by lia.
    pose proof (Rounding.round_nonneg (- (y + - x)) 1 ltac:(lia) ltac:(lia)) as Hr.
    destruct (nonneg_cases _ Hr) as [->|(n & -> & Hn)]; [reflexivity|].
    unfold Number.gtb, Number.ltb, Number.zero. cbn [Number.neg].
    apply Z.ltb_ge. lia.
Qed.

Lemma ltb_false_leb (a b : number) :
  Number.isNaN a = false -> Number.isNaN b = false ->
  Number.ltb a b = false -> Number.leb b a = true.
Proof.
  destruct a as [|[|]|x], b as [|[|]|y]; intros Ha Hb;
    try discriminate Ha; try discriminate Hb; unfold Number.ltb, Number.leb;
    cbn [negb andb orb]; intros H; try discriminate H; try reflexivity.
  apply Z.ltb_ge in H. apply Z.leb_le. exact H.
Qed.

Lemma ltb_true_leb (a b : number) :
  Number.ltb a b = true -> Number.leb a b = true.
Proof.
  destruct a as [|[|]|x], b as [|[|]|y]; unfold Number.ltb, Number.leb;
    cbn [negb andb orb]; intros H; try discriminate H; try reflexivity.
  apply Z.ltb_lt in H. apply Z.leb_le. lia.
Qed.

(** [a] may stand before [b] in the ranking: the key of [b] is not above the
    key of [a]. *)
Definition ranksBefore (a b : CompanyScore) : Prop :=
  Number.leb (sortKey b) (sortKey a) = true.

Definition keyed (r : CompanyScore) : Prop := Number.isNaN (sortKey r) = false.

Lemma insertBy_sorted (x : CompanyScore) (l : list CompanyScore) :
  keyed x -> Forall keyed l ->
  StronglySorted ranksBefore l ->
  StronglySorted ranksBefore (insertBy compareScores x l).
Proof.
  intros Hx Hl Hs. induction Hs as [|y l Hs IH Hy]; cbn [insertBy].
  - constructor; constructor.
  - apply List.Forall_cons_iff in Hl. destruct Hl as [Hky Hl].
    unfold compareScores at 1. rewrite sub_gtb_zero by assumption.
    destruct (Number.ltb (sortKey x) (sortKey y)) eqn:E.
    + constructor; [apply IH; exact Hl|].
      apply (Permutation_Forall (Permutation_sym (insertBy_Permutation _ x l))).
      constructor; [|exact Hy]. unfold ranksBefore. apply ltb_true_leb. exact E.
    + assert (Hxy : ranksBefore x y).
      { unfold ranksBefore. apply ltb_false_leb; assumption. }
      constructor; [constructor; assumption|].
      constructor; [exact Hxy|].
      rewrite List.Forall_forall in Hy |- *. intros z Hz. specialize (Hy z Hz).
      unfold ranksBefore in *. exact (Rounding.leb_trans _ _ _ Hy Hxy).
Qed.

Lemma sortBy_sorted (l : list CompanyScore) :
  Forall keyed l -> StronglySorted ranksBefore (sortBy compareScores l).
Proof.
  induction l as [|x l IH]; intros H; cbn [sortBy fold_right]; [constructor|].
  apply List.Forall_cons_iff in H. destruct H as [Hx Hl].
  apply insertBy_sorted; [exact Hx| |apply IH; exact Hl].
  apply (Permutation_Forall (Permutation_sym (sortBy_Permutation _ l))). exact Hl.
Qed.

Lemma minus_one_eq : Number.of_Z (-1) = Fin (- Number.scale).
Proof. vm_compute. reflexivity. Qed.

Lemma StronglySorted_strengthen {A : Type} (R R' : A -> A -> Prop) (l : list A) :
  (forall a b, In a l -> In b l -> R a b -> R' a b) ->
  StronglySorted R l -> StronglySorted R' l.
Proof.
  intros H Hs. induction Hs as [|a l Hs IH Ha]; constructor.
  - apply IH. intros x y Hx Hy. apply H; right; assumption.
  - rewrite List.Forall_forall in Ha |- *. intros b Hb.
    apply H; [left; reflexivity|right; exact Hb|apply Ha; exact Hb].
Qed.

(** C2 (as amended): when no returned score is [NaN], every result stands
    before the results of lower or equal score, and no result without a
    score stands before a result with one. *)
Theorem ranking_sorted
    (companies : list Company) (weights : list (string * number))
    (fullRanges : gmap string (number * number))
    (metricConfigs : gmap string MetricConfig) (tier0 : string) :
  (forall r, In r (calculateScores companies weights fullRanges metricConfigs tier0) ->
             score r <> Some NaN) ->
  StronglySorted
    (fun a b => ranksBefore a b /\ (score a = None -> score b = None))
    (calculateScores companies weights fullRanges metricConfigs tier0).
Proof.
  intros Hnan.
  assert (Hkeyed : forall r,
            In r (calculateScores companies weights fullRanges metricConfigs tier0) ->
            keyed r).
  { intros r Hr. specialize (Hnan r Hr). unfold keyed, sortKey.
    destruct (score r) as [[| |n]|]; cbn [default];
      [congruence|reflexivity|reflexivity|rewrite minus_one_eq; reflexivity]. }
  apply StronglySorted_strengthen with (R := ranksBefore).
  - intros a b Ha Hb Hab. split; [exact Hab|]. intros Hnone.
    destruct (score b) as [s|] eqn:Hs; [exfalso|reflexivity].
    pose proof (Hnan b Hb) as Hbn. rewrite Hs in Hbn.
    unfold ranksBefore, sortKey in Hab. rewrite Hnone, Hs in Hab.
    cbn [default] in Hab. rewrite minus_one_eq in Hab.
    apply calculateScores_In in Hb. destruct Hb as (company & _ & Eb).
    rewrite Eb in Hs. apply score_nanOrNonneg in Hs.
    pose proof scale_pos as Hsc.
    destruct (nanOrNonneg_cases s Hs) as [->|[->|(n & -> & Hn)]];
      [congruence|discriminate Hab|].
    unfold Number.leb in Hab. apply Z.leb_le in Hab. lia.
  - unfold calculateScores. apply sortBy_sorted.
    apply List.Forall_forall. intros r Hr. apply Hkeyed.
    apply (Permutation_in _ (Permutation_sym (calculateScores_Permutation _ _ _ _ _))).
    exact Hr.
Qed.

Lemma ranking_sorted_witness :
  StronglySorted
    (fun a b => ranksBefore a b /\ (score a = None -> score b = None))
    (calculateScores [Sample.acme; Sample.borax] Sample.weights Sample.ranges
       Sample.configs "free").
Proof.
  refine (ranking_sorted [Sample.acme; Sample.borax] Sample.weights Sample.ranges
            Sample.configs "free" _).
  intros r Hr.
  destruct (proj1 (calculateScores_In _ _ _ _ _ r) Hr)
    as (company & [<-|[<-|[]]] & ->); vm_compute; intros H; discriminate H.
Defined.

(** A second company in the range of [Overflow]: its value [0] normalizes to
    [0], so its score is the number [0]. *)
Definition modest : Company :=
  mkCompany 2 "Modest" (<["financials.revenue_value" := Number.zero]> ∅).

(** The claim fails when a score is [NaN]: the comparator returns [NaN] for
    every pair that involves it, and no arrangement of the two results is
    non-increasing by score. *)
Lemma ranking_nan_counterexample :
  score (scoreCompany Overflow.weights Overflow.ranges Overflow.configs "free"
           Overflow.giant) = Some NaN
  /\ score (scoreCompany Overflow.weights Overflow.ranges Overflow.configs "free"
              modest) = Some Number.zero
  /\ ~ StronglySorted ranksBefore
        (calculateScores [Overflow.giant; modest] Overflow.weights Overflow.ranges
           Overflow.configs "free")
  /\ ~ (exists l,
          Permutation l
            (calculateScores [Overflow.giant; modest] Overflow.weights
               Overflow.ranges Overflow.configs "free")
          /\ StronglySorted ranksBefore l).
Proof.
  assert (Hsg : score (scoreCompany Overflow.weights Overflow.ranges Overflow.configs
                         "free" Overflow.giant) = Some NaN) by (vm_compute; reflexivity).
  assert (Hsm : score (scoreCompany Overflow.weights Overflow.ranges Overflow.configs
                         "free" modest) = Some Number.zero) by (vm_compute; reflexivity).
  assert (Hg : sortKey (scoreCompany Overflow.weights Overflow.ranges Overflow.configs
                          "free" Overflow.giant) = NaN)
    by (unfold sortKey; rewrite Hsg; reflexivity).
  set (g := scoreCompany Overflow.weights Overflow.ranges Overflow.configs "free"
              Overflow.giant) in *.
  set (m := scoreCompany Overflow.weights Overflow.ranges Overflow.configs "free"
              modest) in *.
  assert (Hall : forall l,
            Permutation l
              (calculateScores [Overflow.giant; modest] Overflow.weights
                 Overflow.ranges Overflow.configs "free") ->
            ~ StronglySorted ranksBefore l).
  { intros l Hp Hs.
    assert (Hp' : Permutation l [g; m]).
    { rewrite Hp. apply calculateScores_Permutation. }
    clear Hp.
    assert (Hbad : forall a b, StronglySorted ranksBefore [a; b] ->
              sortKey a = NaN \/ sortKey b = NaN -> False).
    { intros a b Hab Hk. inversion Hab as [|? ? _ Hfa]; subst.
      inversion Hfa as [|? ? Hr _]; subst. unfold ranksBefore in Hr.
      destruct Hk as [E|E]; rewrite E in Hr; [|discriminate Hr].
      destruct (sortKey b); discriminate Hr. }
    assert (Hl : l = [g; m] \/ l = [m; g]).
    { apply Permutation_sym in Hp'.
      destruct (Permutation_length_2_inv Hp') as [E|E]; [left|right]; exact E. }
    destruct Hl as [E|E]; rewrite E in Hs.
    - apply (Hbad _ _ Hs). left. exact Hg.
    - apply (Hbad _ _ Hs). right. exact Hg. }
  split; [exact Hsg|]. split; [exact Hsm|]. split.
  - apply Hall. reflexivity.
  - intros (l & Hp & Hs). exact (Hall l Hp Hs).
Qed.

(** ** Iteration order of the weight map *)

Lemma NoDup_keys_unique (ws : list (string * number)) (k : string) (w w' : number) :
  List.NoDup (map fst ws) -> In (k, w) ws -> In (k, w') ws -> w = w'.
Proof.
  induction ws as [|[k0 w0] ws IH]; cbn [map fst In]; [tauto|].
  intros Hnd H1 H2. inversion Hnd as [|? ? Hnotin Hnd']; subst.
  assert (Hkey : forall v, In (k0, v) ws -> False).
  { intros v Hv. apply Hnotin. apply in_map_iff. exists (k0, v). auto. }
  destruct H1 as [E1|H1], H2 as [E2|H2].
  - apply pair_equal_spec in E1, E2. destruct E1 as [_ <-], E2 as [_ <-]. reflexivity.
  - apply pair_equal_spec in E1. destruct E1 as [<- _]. destruct (Hkey _ H2).
  - apply pair_equal_spec in E2. destruct E2 as [<- _]. destruct (Hkey _ H1).
  - exact (IH Hnd' H1 H2).
Qed.

Lemma activeWeight_NoDup (ws : list (string * number)) (k : string) (w : number) :
  List.NoDup (map fst ws) ->
  (activeWeight ws k = Some w <-> In (k, w) ws /\ Number.leb w Number.zero = false).
Proof.
  intros Hnd. split; [apply activeWeight_In|].
  intros [Hin Hw]. destruct (In_activeWeight ws k w Hin Hw) as [w0 Hw0].
  rewrite Hw0. f_equal. apply activeWeight_In in Hw0.
  exact (NoDup_keys_unique ws k w0 w Hnd (proj1 Hw0) Hin).
Qed.

Lemma activeWeight_Permutation (ws ws' : list (string * number)) (k : string) :
  List.NoDup (map fst ws) -> Permutation ws ws' ->
  activeWeight ws k = activeWeight ws' k.
Proof.
  intros Hnd Hp.
  assert (Hnd' : List.NoDup (map fst ws')).
  { apply (Permutation_NoDup (Permutation_map fst Hp)). exact Hnd. }
  destruct (activeWeight ws k) as [w|] eqn:E.
  - symmetry. apply activeWeight_NoDup; [exact Hnd'|].
    apply activeWeight_NoDup in E; [|exact Hnd]. destruct E as [Hin Hw].
    split; [|exact Hw]. exact (Permutation_in _ Hp Hin).
  - destruct (activeWeight ws' k) as [w|] eqn:E'; [|reflexivity].
    apply activeWeight_NoDup in E'; [|exact Hnd']. destruct E' as [Hin Hw].
    assert (H : activeWeight ws k = Some w).
    { apply activeWeight_NoDup; [exact Hnd|]. split; [|exact Hw].
      exact (Permutation_in _ (Permutation_sym Hp) Hin). }
    congruence.
Qed.

Lemma add_pos_gtb (x w : number) :
  nonneg x -> Number.gtb w Number.zero = true ->
  Number.gtb (Number.add x w) Number.zero = true.
Proof.
  intros Hx Hw.
  destruct w as [|[|]|b]; unfold Number.gtb, Number.ltb, Number.zero in Hw;
    cbn [negb] in Hw; try discriminate Hw.
  - destruct (nonneg_cases x Hx) as [->|(a & -> & _)]; reflexivity.
  - apply add_pos; [exact Hx|]. apply Z.ltb_lt. exact Hw.
Qed.

Lemma fold_add_gtb (l : list number) (b : number) :
  (forall w, In w l -> Number.gtb w Number.zero = true) ->
  Number.gtb b Number.zero = true ->
  Number.gtb (fold_left Number.add l b) Number.zero = true.
Proof.
  revert b. induction l as [|w l IH]; intros b H Hb; [exact Hb|].
  cbn [fold_left]. apply IH.
  - intros w' Hw'. apply H. right. exact Hw'.
  - apply add_pos_gtb; [apply gtb_zero_nonneg; exact Hb|].
    apply H. left. reflexivity.
Qed.

(** *** Sums that do not depend on the order *)

Lemma filter_Permutation {A : Type} (f : A -> bool) (l l' : list A) :
  Permutation l l' -> Permutation (List.filter f l) (List.filter f l').
Proof.
  induction 1 as [|x l l' _ IH|x y l|l l' l'' _ IH1 _ IH2]; cbn [List.filter].
  - constructor.
  - destruct (f x); [constructor|]; exact IH.
  - destruct (f x), (f y); try reflexivity. apply perm_swap.
  - exact (perm_trans IH1 IH2).
Qed.

Lemma fold_add_NaN (l : list number) : fold_left Number.add l NaN = NaN.
Proof. induction l as [|a l IH]; cbn [fold_left]; [reflexivity|exact IH]. Qed.

Lemma fold_add_In_NaN (l : list number) (b : number) :
  In NaN l -> fold_left Number.add l b = NaN.
Proof.
  revert b. induction l as [|a l IH]; intros b; cbn [In fold_left]; [tauto|].
  intros [->|Hin]; [|apply IH; exact Hin].
  replace (Number.add b NaN) with NaN by (destruct b; reflexivity).
  apply fold_add_NaN.
Qed.

(** The total of weights that passed the guard of line 47 is positive
    exactly when there is one and none is [NaN]. *)
Lemma total_positive_iff (l : list number) :
  (forall w, In w l -> Number.leb w Number.zero = false) ->
  (Number.gtb (fold_left Number.add l Number.zero) Number.zero = true <->
   l <> [] /\ forall w, In w l -> Number.isNaN w = false).
Proof.
  intros Hkept. split.
  - intros H. split.
    + intros ->. cbn [fold_left] in H. vm_compute in H. discriminate H.
    + intros w Hin. destruct w as [| |n]; try reflexivity.
      rewrite (fold_add_In_NaN l Number.zero Hin) in H. discriminate H.
  - intros [Hne Hnn]. destruct l as [|a l]; [congruence|].
    cbn [fold_left]. apply fold_add_gtb.
    + intros w Hin. apply leb_false_gtb; [apply Hkept|apply Hnn]; right; exact Hin.
    + apply add_pos_gtb; [reflexivity|].
      apply leb_false_gtb; [apply Hkept|apply Hnn]; left; reflexivity.
Qed.

Lemma total_positive_Permutation (l l' : list number) :
  (forall w, In w l -> Number.leb w Number.zero = false) ->
  Permutation l l' ->
  Number.gtb (fold_left Number.add l Number.zero) Number.zero
  = Number.gtb (fold_left Number.add l' Number.zero) Number.zero.
Proof.
  intros Hkept Hp.
  assert (Hkept' : forall w, In w l' -> Number.leb w Number.zero = false).
  { intros w Hin. apply Hkept. exact (Permutation_in _ (Permutation_sym Hp) Hin). }
  apply eq_true_iff_eq.
  rewrite (total_positive_iff l Hkept), (total_positive_iff l' Hkept').
  split; intros [Hne Hnn]; split.
  - intros ->. apply Permutation_sym, Permutation_nil in Hp. congruence.
  - intros w Hin. apply Hnn. exact (Permutation_in _ (Permutation_sym Hp) Hin).
  - intros ->. apply Permutation_nil in Hp. congruence.
  - intros w Hin. apply Hnn. exact (Permutation_in _ Hp Hin).
Qed.

(** Rounding a rounded value changes nothing. *)
Lemma round53_idempotent (P D : Z) :
  0 <= P -> 0 < D ->
  Number.round53 (Number.round53 P D) 1 = Number.round53 P D.
Proof.
  intros HP HD. unfold Number.round53 at 2 3.
  destruct (Rounding.shift_spec P D HP HD) as (Hk & Hup & _).
  set (k := Number.shift P D) in *.
  assert (Hpk : 0 < 2 ^ k) by (apply Z.pow_pos_nonneg; lia).
  assert (HDk : 0 < D * 2 ^ k) by nia.
  pose proof (Rounding.rne_nonneg P (D * 2 ^ k) HP HDk) as Hlo.
  assert (Hhi : Number.rne P (D * 2 ^ k) <= 2 ^ 53).
  { apply Z.le_trans with (Number.rne (2 ^ 53 * (D * 2 ^ k)) (D * 2 ^ k)).
    - apply Rounding.rne_mono; [exact HDk|exact HDk|].
      rewrite Z.pow_add_r in Hup by lia. nia.
    - rewrite Rounding.rne_exact by exact HDk. lia. }
  set (m := Number.rne P (D * 2 ^ k)) in *.
  destruct (Z.eq_dec m (2 ^ 53)) as [E|NE].
  - rewrite E.
    pose proof (Rounding.round53_exact 1 (53 + k) 1 ltac:(lia) ltac:(lia) ltac:(lia)) as H.
    rewrite Z.pow_add_r in H by lia. rewrite ?Z.mul_1_l, ?Z.mul_1_r in H.
    exact H.
  - pose proof (Rounding.round53_exact m k 1 ltac:(lia) Hk ltac:(lia)) as H.
    rewrite Z.mul_1_r in H. exact H.
Qed.

Lemma round_representable (P D : Z) :
  0 < D -> Number.representable (Number.round P D) = true.
Proof.
  intros HD. unfold Number.round.
  pose proof (Rounding.round53_nonneg (Z.abs P) D (Z.abs_nonneg P) HD) as Hm.
  pose proof (round53_idempotent (Z.abs P) D (Z.abs_nonneg P) HD) as Hidem.
  assert (Hzero : P = 0 -> Number.round53 (Z.abs P) D = 0).
  { intros ->. apply Rounding.round53_zero. exact HD. }
  set (m := Number.round53 (Z.abs P) D) in *.
  destruct (Z.leb_spec Number.limit m) as [|Hlim]; [reflexivity|].
  cbn [Number.representable]. unfold Number.round.
  assert (Hcases : (P = 0 /\ Z.sgn P = 0) \/ Z.sgn P = 1 \/ Z.sgn P = -1) by lia.
  assert (Habs : Z.abs (Z.sgn P * m) = m).
  { destruct Hcases as [[HP ->]|[-> | ->]]; [|lia|lia].
    rewrite (Hzero HP). reflexivity. }
  rewrite Habs, Hidem.
  destruct (Z.leb_spec Number.limit m) as [|_]; [lia|].
  apply Z.eqb_eq.
  destruct (Z.eq_dec m 0) as [Hm0|Hm0].
  - rewrite Hm0, !Z.mul_0_r. reflexivity.
  - destruct Hcases as [[HP _]|[-> | ->]]; [exfalso; auto|..].
    + rewrite Z.mul_1_l, (Z.sgn_pos m) by lia. lia.
    + replace (-1 * m) with (- m) by lia. rewrite (Z.sgn_neg (- m)) by lia. lia.
Qed.

Lemma mul_representable (x y : number) : Number.representable (Number.mul x y) = true.
Proof.
  destruct x as [|s|a], y as [|t|b]; unfold Number.mul; try reflexivity.
  - destruct (b =? 0); reflexivity.
  - destruct (a =? 0); reflexivity.
  - apply round_representable. exact scale_pos.
Qed.

Lemma add_zero_l (x : number) :
  Number.representable x = true -> Number.add Number.zero x = x.
Proof.
  destruct x as [|s|n]; try reflexivity.
  unfold Number.add, Number.zero. cbn [Number.representable]. rewrite Z.add_0_l.
  destruct (Number.round n 1) as [| |m]; try discriminate.
  intros H. apply Z.eqb_eq in H. congruence.
Qed.

Lemma add_comm (x y : number) : Number.add x y = Number.add y x.
Proof.
  destruct x as [|s|a], y as [|t|b]; unfold Number.add; try reflexivity.
  - destruct s, t; reflexivity.
  - rewrite Z.add_comm. reflexivity.
Qed.

(** Up to two numbers add up to the same total in either order. *)
Lemma fold_add_short (l l' : list number) :
  Permutation l l' -> (List.length l <= 2)%nat ->
  (forall x, In x l -> Number.representable x = true) ->
  fold_left Number.add l Number.zero = fold_left Number.add l' Number.zero.
Proof.
  intros Hp Hlen Hrep.
  destruct l as [|a [|b [|c l]]].
  - apply Permutation_nil in Hp. subst l'. reflexivity.
  - apply Permutation_length_1_inv in Hp. subst l'. reflexivity.
  - apply Permutation_length_2_inv in Hp. destruct Hp as [->| ->]; [reflexivity|].
    cbn [fold_left].
    rewrite !add_zero_l by (apply Hrep; cbn [In]; auto).
    apply add_comm.
  - cbn [List.length] in Hlen. lia.
Qed.

Lemma componentFor_weightedScore_representable company fullRanges metricConfigs tier0 k w :
  Number.representable
    (weightedScore (componentFor company fullRanges metricConfigs tier0 k w)) = true.
Proof.
  unfold componentFor.
  destruct (metricConfigs !! k) as [cfg|]; [|reflexivity].
  destruct (accessGranted tier0 (tier cfg)); [|reflexivity].
  cbn [negb].
  destruct (getNestedValue company (nested_path cfg)) as [[| |raw]|]; try reflexivity.
  destruct (fullRanges !! k) as [[[| |lo] [| |hi]]|]; try reflexivity.
  apply mul_representable.
Qed.

Lemma includedEntries_kept company fullRanges metricConfigs tier0 ws k w :
  In (k, w) (includedEntries company fullRanges metricConfigs tier0 ws) ->
  In (k, w) ws /\ Number.leb w Number.zero = false.
Proof.
  intros H. apply List.filter_In in H. destruct H as [Hin Hc].
  unfold counted in Hc. cbn [fst snd] in Hc. apply andb_true_iff in Hc.
  destruct Hc as [Hle _]. apply negb_true_iff in Hle. auto.
Qed.

Lemma Breakdown_eq (b b' : Breakdown) :
  ownEntries b = ownEntries b' -> prototype b = prototype b' -> b = b'.
Proof.
  destruct b as [o p], b' as [o' p']. cbn [ownEntries prototype].
  intros -> ->. reflexivity.
Qed.

Module Reordered.

Definition configs : gmap string MetricConfig :=
  <["revenue" := mkMetricConfig "Revenue" "free" "financials.revenue_value" true]>
  (<["cash" := mkMetricConfig "Cash" "free" "financials.cash_value" true]>
  (<["assets" := mkMetricConfig "Assets" "free" "financials.assets_value" true]> ∅)).

Definition ranges : gmap string (number * number) :=
  <["revenue" := (Number.of_Z 0, Number.of_Z 10)]>
  (<["cash" := (Number.of_Z 0, Number.of_Z 10)]>
  (<["assets" := (Number.of_Z 0, Number.of_Z 10)]> ∅)).

Definition acme : Company :=
  mkCompany 1 "Acme"
    (<["financials.revenue_value" := Number.of_Z 7]>
    (<["financials.cash_value" := Number.of_Z 4]>
    (<["financials.assets_value" := Number.of_Z 7]> ∅))).

Definition weights : list (string * number) :=
  [("revenue", Number.of_Z 90); ("cash", Number.of_Z 65); ("assets", Number.of_Z 45)].

Definition weights' : list (string * number) :=
  [("revenue", Number.of_Z 90); ("assets", Number.of_Z 45); ("cash", Number.of_Z 65)].

End Reordered.

(** C9 (as amended): visiting the entries of the weight map in another
    order leaves every company's breakdown unchanged and does not change
    whether its score is [null]; it leaves the score itself unchanged when
    at most two metrics are included, and when the included metrics are
    visited in the same order as before. *)
Theorem breakdown_order_independent
    (weights weights' : list (string * number))
    (fullRanges : gmap string (number * number))
    (metricConfigs : gmap string MetricConfig) (tier0 : string)
    (company : Company) :
  List.NoDup (map fst weights) -> Permutation weights weights' ->
  breakdown (scoreCompany weights fullRanges metricConfigs tier0 company)
  = breakdown (scoreCompany weights' fullRanges metricConfigs tier0 company)
  /\ (score (scoreCompany weights fullRanges metricConfigs tier0 company) = None <->
      score (scoreCompany weights' fullRanges metricConfigs tier0 company) = None)
  /\ ((forall k w, In (k, w) weights -> Number.representable w = true) ->
      (List.length (includedEntries company fullRanges metricConfigs tier0 weights)
       <= 2)%nat ->
      score (scoreCompany weights fullRanges metricConfigs tier0 company)
      = score (scoreCompany weights' fullRanges metricConfigs tier0 company))
  /\ (includedEntries company fullRanges metricConfigs tier0 weights
      = includedEntries company fullRanges metricConfigs tier0 weights' ->
      score (scoreCompany weights fullRanges metricConfigs tier0 company)
      = score (scoreCompany weights' fullRanges metricConfigs tier0 company)).
Proof.
  intros Hnd Hp.
  pose proof (filter_Permutation (counted company fullRanges metricConfigs tier0)
                weights weights' Hp) as HpL.
  fold (includedEntries company fullRanges metricConfigs tier0 weights) in HpL.
  fold (includedEntries company fullRanges metricConfigs tier0 weights') in HpL.
  split; [|split; [|split]].
  - apply Breakdown_eq.
    + apply map_eq. intros k. rewrite !scoreCompany_ownEntries.
      rewrite (activeWeight_Permutation weights weights' k Hnd Hp). reflexivity.
    + rewrite !scoreCompany_prototype.
      rewrite (activeWeight_Permutation weights weights' _ Hnd Hp). reflexivity.
  - rewrite !scoreCompany_score. unfold weightTotal.
    assert (Hkept : forall w,
              In w (map snd (includedEntries company fullRanges metricConfigs tier0
                               weights)) ->
              Number.leb w Number.zero = false).
    { intros w Hin. apply in_map_iff in Hin. destruct Hin as ([k w'] & <- & Hin).
      exact (proj2 (includedEntries_kept _ _ _ _ _ _ _ Hin)). }
    rewrite (total_positive_Permutation _ _ Hkept (Permutation_map snd HpL)).
    destruct (Number.gtb _ Number.zero); [split; intros H; discriminate H|tauto].
  - intros Hrep Hlen. rewrite !scoreCompany_score.
    assert (HW : weightTotal company fullRanges metricConfigs tier0 weights
                 = weightTotal company fullRanges metricConfigs tier0 weights').
    { unfold weightTotal. apply fold_add_short.
      - apply Permutation_map. exact HpL.
      - rewrite length_map. exact Hlen.
      - intros x Hin. apply in_map_iff in Hin. destruct Hin as ([k w] & <- & Hin).
        apply (Hrep k). exact (proj1 (includedEntries_kept _ _ _ _ _ _ _ Hin)). }
    assert (HS : weightedTotal company fullRanges metricConfigs tier0 weights
                 = weightedTotal company fullRanges metricConfigs tier0 weights').
    { unfold weightedTotal. apply fold_add_short.
      - apply Permutation_map. exact HpL.
      - rewrite length_map. exact Hlen.
      - intros x Hin. apply in_map_iff in Hin. destruct Hin as ([k w] & <- & _).
        apply componentFor_weightedScore_representable. }
    rewrite HW, HS. reflexivity.
  - intros HL. rewrite !scoreCompany_score. unfold weightTotal, weightedTotal.
    rewrite HL. reflexivity.
Qed.

Lemma breakdown_order_independent_witness :
  breakdown (scoreCompany Sample.weights Sample.ranges Sample.configs "free"
               Sample.borax)
  = breakdown (scoreCompany (rev Sample.weights) Sample.ranges Sample.configs "free"
                 Sample.borax)
  /\ score (scoreCompany Sample.weights Sample.ranges Sample.configs "free"
              Sample.borax)
     = score (scoreCompany (rev Sample.weights) Sample.ranges Sample.configs "free"
                Sample.borax).
Proof.
  destruct (breakdown_order_independent Sample.weights (rev Sample.weights)
              Sample.ranges Sample.configs "free" Sample.borax) as (Hb & _ & Hs & _).
  - unfold Sample.weights. cbn [map fst].
    repeat constructor; cbn [In]; intros H;
      repeat (destruct H as [H|H]; [discriminate H|]); exact H.
  - apply Permutation_rev.
  - split; [exact Hb|]. apply Hs.
    + intros k w Hin. unfold Sample.weights, In in Hin.
      destruct Hin as [E|[E|[E|[E|[E|[]]]]]];
        apply pair_equal_spec in E; destruct E as [<- <-]; vm_compute; reflexivity.
    + vm_compute. repeat constructor.
Defined.

(** The claim fails for the score: three free metrics with the values 7, 4
    and 7 in the range [[0, 10]] and the weights 90, 65 and 45.  Added in the
    order revenue, cash, assets the weighted total rounds to a score of 603;
    in the order revenue, assets, cash it rounds to 602. *)
Lemma score_order_counterexample :
  Permutation Reordered.weights Reordered.weights'
  /\ score (scoreCompany Reordered.weights Reordered.ranges Reordered.configs "free"
              Reordered.acme) = Some (Fin (603 * Number.scale))
  /\ score (scoreCompany Reordered.weights' Reordered.ranges Reordered.configs "free"
              Reordered.acme) = Some (Fin (602 * Number.scale))
  /\ scoreCompany Reordered.weights Reordered.ranges Reordered.configs "free"
       Reordered.acme
     <> scoreCompany Reordered.weights' Reordered.ranges Reordered.configs "free"
          Reordered.acme.
Proof.
  assert (E1 : score (scoreCompany Reordered.weights Reordered.ranges Reordered.configs
                        "free" Reordered.acme) = Some (Fin (603 * Number.scale)))
    by (vm_compute; reflexivity).
  assert (E2 : score (scoreCompany Reordered.weights' Reordered.ranges Reordered.configs
                        "free" Reordered.acme) = Some (Fin (602 * Number.scale)))
    by (vm_compute; reflexivity).
  split; [apply perm_skip; apply perm_swap|].
  split; [exact E1|]. split; [exact E2|].
  intros H. rewrite H, E2 in E1.
  assert (Hz : 602 * Number.scale = 603 * Number.scale) by congruence.
  pose proof scale_pos. lia.
Qed.
(** * Further properties of [calculateScores] *)

(** The entries that the loop does not skip at line 47. *)
Definition keptWeights (ws : list (string * number)) : list (string * number) :=
  List.filter (fun e => negb (Number.leb (snd e) Number.zero)) ws.

(** The result of a company for which no metric is processed. *)
Definition unscored (company : Company) : CompanyScore :=
  mkCompanyScore (company_id company) (company_name company) None emptyBreakdown.

Lemma fold_keptWeights company fullRanges metricConfigs tier0 ws st :
  fold_left (scoreMetric company fullRanges metricConfigs tier0) ws st
  = fold_left (scoreMetric company fullRanges metricConfigs tier0) (keptWeights ws) st.
Proof.
  revert st. induction ws as [|[k w] ws IH]; intros st; [reflexivity|].
  unfold keptWeights. cbn [fold_left List.filter snd].
  destruct (Number.leb w Number.zero) eqn:Hw; cbn [negb].
  - rewrite scoreMetric_skip by exact Hw. apply IH.
  - cbn [fold_left]. apply IH.
Qed.

Lemma calculateScores_keptWeights companies weights fullRanges metricConfigs tier0 :
  calculateScores companies weights fullRanges metricConfigs tier0
  = calculateScores companies (keptWeights weights) fullRanges metricConfigs tier0.
Proof.
  unfold calculateScores. f_equal. apply map_ext. intros company.
  unfold scoreCompany. rewrite fold_keptWeights. reflexivity.
Qed.

(** X1: entries whose weight is [<= 0] leave no trace: removing them from
    the weight map changes neither the scores, nor the breakdowns, nor the
    order of the results. *)
Theorem skipped_weights_leave_no_trace
    (companies : list Company) (weights : list (string * number))
    (fullRanges : gmap string (number * number))
    (metricConfigs : gmap string MetricConfig) (tier0 : string) :
  calculateScores companies weights fullRanges metricConfigs tier0
  = calculateScores companies (keptWeights weights) fullRanges metricConfigs tier0
  /\ forall k w, In (k, w) (keptWeights weights) <->
       In (k, w) weights /\ Number.leb w Number.zero = false.
Proof.
  split; [apply calculateScores_keptWeights|].
  intros k w. unfold keptWeights. rewrite List.filter_In. cbn [snd].
  rewrite negb_true_iff. reflexivity.
Qed.

Lemma compare_null_null :
  Number.gtb (Number.sub (Number.of_Z (-1)) (Number.of_Z (-1))) Number.zero = false.
Proof. vm_compute. reflexivity. Qed.

Lemma sortBy_all_null (l : list CompanyScore) :
  Forall (fun r => score r = None) l -> sortBy compareScores l = l.
Proof.
  induction l as [|x l IH]; intros H; [reflexivity|].
  apply List.Forall_cons_iff in H. destruct H as [Hx Hl].
  cbn [sortBy fold_right]. fold (sortBy compareScores l). rewrite (IH Hl).
  destruct l as [|y l']; [reflexivity|]. cbn [insertBy].
  apply List.Forall_cons_iff in Hl. destruct Hl as [Hy _].
  unfold compareScores, sortKey. rewrite Hx, Hy. cbn [default].
  rewrite compare_null_null. reflexivity.
Qed.

(** X2: when every weight of the map is [<= 0] (in particular for an empty
    map), each company gets a [null] score and an empty breakdown, and the
    results keep the order of the input. *)
Theorem no_kept_weight_gives_unscored
    (companies : list Company) (weights : list (string * number))
    (fullRanges : gmap string (number * number))
    (metricConfigs : gmap string MetricConfig) (tier0 : string) :
  (forall k w, In (k, w) weights -> Number.leb w Number.zero = true) ->
  calculateScores companies weights fullRanges metricConfigs tier0
  = map unscored companies.
Proof.
  intros H.
  assert (Hk : keptWeights weights = []).
  { unfold keptWeights. induction weights as [|[k w] ws IH]; [reflexivity|].
    cbn [List.filter snd]. rewrite (H k w) by (left; reflexivity). cbn [negb].
    apply IH. intros k' w' Hin. apply (H k' w'). right. exact Hin. }
  rewrite calculateScores_keptWeights, Hk. unfold calculateScores.
  assert (E : map (scoreCompany [] fullRanges metricConfigs tier0) companies
              = map unscored companies).
  { apply map_ext. intros c. unfold scoreCompany, unscored, finalScore.
    cbn [fold_left initialTotals totalEffectiveWeight scoreBreakdown].
    unfold Number.gtb, Number.ltb, Number.zero. rewrite Z.ltb_irrefl. reflexivity. }
  rewrite E. apply sortBy_all_null.
  apply List.Forall_forall. intros r Hr. apply in_map_iff in Hr.
  destruct Hr as (c & <- & _). reflexivity.
Qed.

Lemma no_kept_weight_gives_unscored_witness :
  calculateScores [Sample.acme; Sample.borax]
    [("revenue"%string, Number.zero); ("debt"%string, Number.of_Z (-5))]
    Sample.ranges Sample.configs "free"
  = [unscored Sample.acme; unscored Sample.borax].
Proof.
  refine (no_kept_weight_gives_unscored [Sample.acme; Sample.borax]
            [("revenue"%string, Number.zero); ("debt"%string, Number.of_Z (-5))]
            Sample.ranges Sample.configs "free" _).
  intros k w Hin. unfold In in Hin.
  destruct Hin as [E|[E|[]]]; apply pair_equal_spec in E; destruct E as [<- <-];
    vm_compute; reflexivity.
Defined.

(** X3: a result holds a component under a key exactly when the weight map
    holds, for that key, a weight that is not [<= 0]; the component carries
    such a weight of the map, and it is an entry of the breakdown for every
    key but [__proto__]. *)
Theorem breakdown_keys_are_kept_weights
    (weights : list (string * number))
    (fullRanges : gmap string (number * number))
    (metricConfigs : gmap string MetricConfig) (tier0 : string)
    (company : Company) (k : string) :
  let b := breakdown (scoreCompany weights fullRanges metricConfigs tier0 company) in
  (is_Some (b !! k)
   <-> exists w, In (k, w) weights /\ Number.leb w Number.zero = false)
  /\ (is_Some (ownEntries b !! k)
      <-> k <> "__proto__"%string
          /\ exists w, In (k, w) weights /\ Number.leb w Number.zero = false)
  /\ forall c, b !! k = Some c ->
       In (k, weight c) weights /\ Number.leb (weight c) Number.zero = false.
Proof.
  intros b. subst b.
  assert (Hread : is_Some (componentFor company fullRanges metricConfigs tier0 k
                             <$> activeWeight weights k)
                  <-> exists w, In (k, w) weights /\ Number.leb w Number.zero = false).
  { split.
    - intros [c Hc]. destruct (activeWeight weights k) as [w|] eqn:E; [|discriminate Hc].
      exists w. apply activeWeight_In. exact E.
    - intros (w & Hin & Hw). destruct (In_activeWeight weights k w Hin Hw) as [w0 ->].
      cbn. eauto. }
  rewrite scoreCompany_breakdown, scoreCompany_ownEntries. split; [exact Hread|]. split.
  - destruct (String.eqb_spec k "__proto__") as [->|Hk].
    + split; [intros [? H]; discriminate H|intros [H _]; congruence].
    + rewrite Hread. tauto.
  - intros c Hc. destruct (activeWeight weights k) as [w|] eqn:E; [|discriminate Hc].
    cbn in Hc. injection Hc as <-. rewrite componentFor_weight.
    apply activeWeight_In. exact E.
Qed.

(** X4: the fields of a stored component fit together: it is included
    exactly when it has a normalized value, and exactly when it has no
    error; an included component is accessible, keeps its raw value and
    contributes [normalized * weight]; an excluded one contributes [0]. *)
Theorem component_fields_consistent
    (weights : list (string * number))
    (fullRanges : gmap string (number * number))
    (metricConfigs : gmap string MetricConfig) (tier0 : string)
    (company : Company) (k : string) (c : ScoreComponent) :
  breakdown (scoreCompany weights fullRanges metricConfigs tier0 company) !! k = Some c ->
  (isIncluded c = true <-> is_Some (normalizedValue c))
  /\ (isIncluded c = true <-> error c = None)
  /\ (isIncluded c = true ->
        isAccessible c = true /\ is_Some (rawValue c)
        /\ exists n, normalizedValue c = Some n
                     /\ weightedScore c = Number.mul n (weight c))
  /\ (isIncluded c = false -> weightedScore c = Number.zero).
Proof.
  rewrite scoreCompany_breakdown.
  destruct (activeWeight weights k) as [w|]; [|intros H; discriminate H].
  cbn [fmap option_fmap option_map]. intros [= <-].
  assert (Hex : forall lbl raw acc msg,
            let c := excluded lbl raw w acc msg in
            (isIncluded c = true <-> is_Some (normalizedValue c))
            /\ (isIncluded c = true <-> error c = None)
            /\ (isIncluded c = true ->
                  isAccessible c = true /\ is_Some (rawValue c)
                  /\ exists n, normalizedValue c = Some n
                               /\ weightedScore c = Number.mul n (weight c))
            /\ (isIncluded c = false -> weightedScore c = Number.zero)).
  { intros lbl raw acc msg. cbn.
    split; [split; [intros H; discriminate H|intros [? H]; discriminate H]|].
    split; [split; intros H; discriminate H|].
    split; [intros H; discriminate H|reflexivity]. }
  unfold componentFor.
  destruct (metricConfigs !! k) as [cfg|]; [|apply Hex].
  destruct (accessGranted tier0 (tier cfg)); cbn [negb]; [|apply Hex].
  destruct (getNestedValue company (nested_path cfg)) as [[| |raw]|]; try apply Hex.
  destruct (fullRanges !! k) as [[[| |lo] [| |hi]]|]; try apply Hex.
  cbn [isIncluded normalizedValue error isAccessible rawValue weightedScore weight].
  split; [split; eauto|]. split; [split; reflexivity|].
  split; [|intros H; discriminate H]. intros _. split; [reflexivity|].
  split; eauto.
Qed.

Lemma component_fields_consistent_witness :
  exists c,
    breakdown (scoreCompany Sample.weights Sample.ranges Sample.configs "free"
                 Sample.acme) !! "revenue" = Some c
    /\ (isIncluded c = true <-> error c = None).
Proof.
  assert (H : exists c,
            breakdown (scoreCompany Sample.weights Sample.ranges Sample.configs "free"
                         Sample.acme) !! "revenue" = Some c)
    by (vm_compute; eauto).
  destruct H as [c Hc]. exists c. split; [exact Hc|].
  exact (proj1 (proj2 (component_fields_consistent Sample.weights Sample.ranges
                         Sample.configs "free" Sample.acme "revenue" c Hc))).
Defined.

(** X5: a component records a raw value exactly when its metric is defined,
    granted to the viewer and the company holds a finite number at the
    metric's path, whatever the state of the range. *)
Theorem raw_value_recorded_iff
    (weights : list (string * number))
    (fullRanges : gmap string (number * number))
    (metricConfigs : gmap string MetricConfig) (tier0 : string)
    (company : Company) (k : string) (c : ScoreComponent) (v : number) :
  breakdown (scoreCompany weights fullRanges metricConfigs tier0 company) !! k = Some c ->
  (rawValue c = Some v <->
   exists cfg, metricConfigs !! k = Some cfg
     /\ accessGranted tier0 (tier cfg) = true
     /\ getNestedValue company (nested_path cfg) = Some v
     /\ Number.isFinite v = true).
Proof.
  rewrite scoreCompany_breakdown.
  destruct (activeWeight weights k) as [w|]; [|intros H; discriminate H].
  cbn [fmap option_fmap option_map]. intros [= <-]. unfold componentFor.
  destruct (metricConfigs !! k) as [cfg|].
  2: { cbn. split; [intros H; discriminate H|intros (? & H & _); discriminate H]. }
  destruct (accessGranted tier0 (tier cfg)) eqn:Hacc; cbn [negb].
  2: { cbn. split; [intros H; discriminate H|].
       intros (cfg' & [= <-] & H & _). congruence. }
  destruct (getNestedValue company (nested_path cfg)) as [[| |raw]|] eqn:Hraw.
  1,2,4: cbn; split; [intros H; discriminate H|];
         intros (cfg' & [= <-] & _ & H1 & H2); rewrite Hraw in H1;
         try discriminate H1; injection H1 as <-; discriminate H2.
  assert (Hiff : Some (Fin raw) = Some v <->
            exists cfg', Some cfg = Some cfg'
              /\ accessGranted tier0 (tier cfg') = true
              /\ getNestedValue company (nested_path cfg') = Some v
              /\ Number.isFinite v = true).
  { split.
    - intros [= <-]. exists cfg. auto.
    - intros (cfg' & [= <-] & _ & H1 & _). rewrite Hraw in H1. exact H1. }
  destruct (fullRanges !! k) as [[[| |lo] [| |hi]]|]; cbn; exact Hiff.
Qed.

Lemma raw_value_recorded_iff_witness :
  exists c,
    breakdown (scoreCompany Sample.weights Sample.ranges Sample.configs "free"
                 Sample.acme) !! "debt" = Some c
    /\ (rawValue c = Some (Number.of_Z 3) <->
        exists cfg, Sample.configs !! "debt" = Some cfg
          /\ accessGranted "free" (tier cfg) = true
          /\ getNestedValue Sample.acme (nested_path cfg) = Some (Number.of_Z 3)
          /\ Number.isFinite (Number.of_Z 3) = true).
Proof.
  assert (H : exists c,
            breakdown (scoreCompany Sample.weights Sample.ranges Sample.configs "free"
                         Sample.acme) !! "debt" = Some c)
    by (vm_compute; eauto).
  destruct H as [c Hc]. exists c. split; [exact Hc|].
  exact (raw_value_recorded_iff Sample.weights Sample.ranges Sample.configs "free"
           Sample.acme "debt" c (Number.of_Z 3) Hc).
Defined.

(** X6: access is monotone in the viewer's tier: whatever a viewer of some
    rank is granted, every viewer of the same or a higher rank is granted
    too. *)
Theorem tier_access_monotone (viewer viewer' required : string) (a b : Z) :
  rank viewer = Some a -> rank viewer' = Some b -> a <= b ->
  accessGranted viewer required = true -> accessGranted viewer' required = true.
Proof.
  intros Ha Hb Hab. rewrite !accessGranted_spec.
  intros [(rv & rr & Hv & Hr & Hle)|(sv & sr & Hv & _)]; [|congruence].
  left. exists b, rr. split; [exact Hb|]. split; [exact Hr|].
  assert (rv = a) by congruence. lia.
Qed.

Lemma tier_access_monotone_witness : accessGranted "premium" "medium" = true.
Proof.
  refine (tier_access_monotone "medium" "premium" "medium" 1 2 _ _ _ _);
    (reflexivity || lia).
Defined.

(** X7: under the conditions of the score range (a finite binary64 weight, a
    normalized value that is not [NaN]) an included component contributes at
    least [0] and at most its weight, and its normalized value lies in
    [[0, 1]]. *)
Theorem contribution_within_weight
    (weights : list (string * number))
    (fullRanges : gmap string (number * number))
    (metricConfigs : gmap string MetricConfig) (tier0 : string)
    (company : Company) (k : string) (c : ScoreComponent) :
  breakdown (scoreCompany weights fullRanges metricConfigs tier0 company) !! k = Some c ->
  isIncluded c = true ->
  Number.isFinite (weight c) = true -> Number.representable (weight c) = true ->
  normalizedValue c <> Some NaN ->
  (exists n, normalizedValue c = Some n /\ inUnit n)
  /\ Number.leb Number.zero (weightedScore c) = true
  /\ Number.leb (weightedScore c) (weight c) = true.
Proof.
  rewrite scoreCompany_breakdown.
  destruct (activeWeight weights k) as [w|] eqn:E; [|intros H; discriminate H].
  cbn [fmap option_fmap option_map]. intros [= <-].
  rewrite componentFor_included, componentFor_weight. intros Hg Hfin Hrep Hnan.
  apply activeWeight_In in E. destruct E as [_ Hle].
  destruct (componentFor_contribution company fullRanges metricConfigs tier0 k w Hg)
    as (n & En & Ew & Hunit).
  rewrite En in Hnan. rewrite En, Ew.
  assert (Hn : inUnit n).
  { apply Hunit. destruct n; [congruence|reflexivity|reflexivity]. }
  destruct (kept_weight_positive w Hfin Hle) as (z & -> & Hz).
  split; [exists n; auto|]. apply mul_unit_weight; assumption.
Qed.

Lemma contribution_within_weight_witness :
  exists c,
    breakdown (scoreCompany Sample.weights Sample.ranges Sample.configs "free"
                 Sample.acme) !! "revenue" = Some c
    /\ Number.leb (weightedScore c) (weight c) = true.
Proof.
  assert (H : exists c,
            breakdown (scoreCompany Sample.weights Sample.ranges Sample.configs "free"
                         Sample.acme) !! "revenue" = Some c
            /\ isIncluded c = true /\ Number.isFinite (weight c) = true
            /\ Number.representable (weight c) = true
            /\ normalizedValue c <> Some NaN).
  { eexists. split; [vm_compute; reflexivity|].
    split; [reflexivity|]. split; [reflexivity|].
    split; [vm_compute; reflexivity|]. cbn [normalizedValue]. intros H. discriminate H. }
  destruct H as (c & Hc & H1 & H2 & H3 & H4). exists c. split; [exact Hc|].
  exact (proj2 (proj2 (contribution_within_weight Sample.weights Sample.ranges
                         Sample.configs "free" Sample.acme "revenue" c Hc H1 H2 H3 H4))).
Defined.

(** * The scatter chart's point sizes ([pages/scatter-chart/index.tsx]) *)

(** Integers below [2^53] are numbers. *)
Lemma of_Z_small (c : Z) : 0 <= c < 2 ^ 53 -> Number.of_Z c = Fin (c * Number.scale).
Proof.
  intros Hc. unfold Number.of_Z.
  assert (Hs : 0 < Number.scale) by exact scale_pos.
  rewrite Rounding.round_nonneg_form by nia.
  assert (E : Number.round53 (c * Number.scale) 1 = c * Number.scale).
  { pose proof (Rounding.round53_exact c 1074 1 Hc ltac:(lia) ltac:(lia)) as H.
    rewrite Z.mul_1_r in H. exact H. }
  rewrite E.
  assert (Hlt : c * Number.scale < Number.limit).
  { unfold Number.scale, Number.limit.
    assert (2 ^ 53 * 2 ^ 1074 <= 2 ^ 2098).
    { rewrite <- Z.pow_add_r by lia. apply Z.pow_le_mono_r; lia. }
    assert (0 < 2 ^ 1074) by (apply Z.pow_pos_nonneg; lia). nia. }
  destruct (Z.leb_spec Number.limit (c * Number.scale)); [lia|reflexivity].
Qed.

(** [x || 0] on numbers: [NaN] and zero are falsy. *)
Definition orZero (x : number) : number :=
  match x with
  | NaN => Number.zero
  | Inf _ => x
  | Fin n => if n =? 0 then Number.zero else x
  end.

(** [Math.max(0, Math.min(1, normalizedValue || 0))]. *)
Definition clampedValue (normalizedValue : number) : number :=
  Number.max Number.zero (Number.min one (orZero normalizedValue)).

(** [chartSettingsFunctions.pointRadius]. *)
Definition pointRadius (normalizedValue : number) : number :=
  Number.add (Number.of_Z 5) (Number.mul (clampedValue normalizedValue) (Number.of_Z 25)).

(** [chartSettingsFunctions.pointHoverRadius]. *)
Definition pointHoverRadius (normalizedValue : number) : number :=
  Number.add (Number.of_Z 7) (Number.mul (clampedValue normalizedValue) (Number.of_Z 28)).

Lemma clampedValue_inUnit (x : number) : inUnit (clampedValue x).
Proof.
  apply clamp_inUnit. destruct x as [| |n]; try reflexivity.
  cbn [orZero]. destruct (n =? 0); reflexivity.
Qed.

(** [base + c * span] stays between [base] and [base + span] for [c] in
    [[0, 1]]. *)
Lemma affine_range (c : number) (base span : Z) :
  inUnit c -> 0 <= base -> 0 <= span -> base + span < 2 ^ 53 ->
  Number.leb (Number.of_Z base)
    (Number.add (Number.of_Z base) (Number.mul c (Number.of_Z span))) = true
  /\ Number.leb (Number.add (Number.of_Z base) (Number.mul c (Number.of_Z span)))
       (Number.of_Z (base + span)) = true.
Proof.
  intros Hc Hb Hs Hsum. pose proof scale_pos as Hsc.
  destruct (inUnit_Fin c Hc) as (a & -> & Ha).
  rewrite (of_Z_small span) by lia.
  assert (Hm : exists n, Number.mul (Fin a) (Fin (span * Number.scale)) = Fin n
                         /\ 0 <= n <= span * Number.scale).
  { assert (Hlo : nonneg (Number.mul (Fin a) (Fin (span * Number.scale)))).
    { unfold Number.mul. apply Rounding.round_nonneg; nia. }
    assert (Hup : Number.leb (Number.mul (Fin a) (Fin (span * Number.scale)))
                    (Number.of_Z span) = true).
    { unfold Number.mul, Number.of_Z. apply Rounding.round_mono; nia. }
    rewrite (of_Z_small span) in Hup by lia.
    destruct (nonneg_cases _ Hlo) as [E|(n & E & Hn)]; rewrite E in Hup.
    - discriminate Hup.
    - exists n. split; [exact E|]. unfold Number.leb in Hup.
      apply Z.leb_le in Hup. lia. }
  destruct Hm as (n & -> & Hn).
  rewrite (of_Z_small base) at 2 3 by lia. unfold Number.add at 1 2.
  unfold Number.of_Z. split; apply Rounding.round_mono; nia.
Qed.

(** X8: for every number, [NaN] and the infinities included, the point
    radius lies in [[5, 30]] and the hover radius in [[7, 35]]. *)
Theorem point_radius_bounds (normalizedValue : number) :
  Number.leb (Number.of_Z 5) (pointRadius normalizedValue) = true
  /\ Number.leb (pointRadius normalizedValue) (Number.of_Z 30) = true
  /\ Number.leb (Number.of_Z 7) (pointHoverRadius normalizedValue) = true
  /\ Number.leb (pointHoverRadius normalizedValue) (Number.of_Z 35) = true.
Proof.
  pose proof (clampedValue_inUnit normalizedValue) as Hc.
  destruct (affine_range _ 5 25 Hc ltac:(lia) ltac:(lia) ltac:(lia)) as [H1 H2].
  destruct (affine_range _ 7 28 Hc ltac:(lia) ltac:(lia) ltac:(lia)) as [H3 H4].
  unfold pointRadius, pointHoverRadius. auto.
Qed.

(** * The company table ([components/company-data-table.tsx]) *)





(** * Monotone normalization *)

Lemma epsilon_pos : exists e, epsilon = Fin e /\ 0 < e.
Proof. vm_compute. eexists. split; reflexivity. Qed.

Lemma clamp_mono (x y : number) :
  Number.leb x y = true ->
  Number.leb (Number.max Number.zero (Number.min one x))
             (Number.max Number.zero (Number.min one y)) = true.
Proof.
  pose proof scale_pos as Hs. rewrite one_eq.
  destruct x as [|[|]|a], y as [|[|]|b]; unfold Number.leb at 1; cbn [negb orb];
    intros H; try discriminate H;
    unfold Number.min, Number.max, Number.leb, Number.zero; cbn [negb orb];
    repeat match goal with
           | |- context [?u <=? ?v] => destruct (Z.leb_spec u v)
           end;
    try reflexivity; try lia.
  all: apply Z.leb_le in H; lia.
Qed.

Lemma sub_mono_l (a b l : Z) :
  a <= b -> Number.leb (Number.sub (Fin a) (Fin l)) (Number.sub (Fin b) (Fin l)) = true.
Proof.
  intros H. unfold Number.sub, Number.add. cbn [Number.neg].
  apply Rounding.round_mono; lia.
Qed.

Lemma div_mono_Fin (x y : number) (w : Z) :
  0 < w -> Number.leb x y = true ->
  Number.leb (Number.div x (Fin w)) (Number.div y (Fin w)) = true.
Proof.
  intros Hw. pose proof scale_pos as Hs.
  assert (Hd : forall a, Number.div (Fin a) (Fin w)
                         = Number.round (a * Number.scale) w).
  { intros a. unfold Number.div. destruct (Z.eqb_spec w 0); [lia|].
    rewrite Z.sgn_pos, Z.abs_eq, Z.mul_1_l by lia. reflexivity. }
  assert (Hi : forall s, Number.div (Inf s) (Fin w) = Inf s).
  { intros s. unfold Number.div. destruct (Z.ltb_spec w 0); [lia|].
    destruct s; reflexivity. }
  destruct x as [|s|a], y as [|t|b]; unfold Number.leb at 1; intros H;
    try discriminate H; rewrite ?Hd, ?Hi.
  - destruct s, t; try discriminate H; reflexivity.
  - subst s. destruct (Number.round (b * Number.scale) w) as [|[|]|]eqn:E;
      try reflexivity.
    exfalso. pose proof (Rounding.round_mono (b * Number.scale) w
                           (b * Number.scale) w Hw Hw ltac:(lia)) as R.
    rewrite E in R. discriminate R.
  - apply negb_true_iff in H. subst t.
    destruct (Number.round (a * Number.scale) w) as [|[|]|]eqn:E; try reflexivity.
    exfalso. pose proof (Rounding.round_mono (a * Number.scale) w
                           (a * Number.scale) w Hw Hw ltac:(lia)) as R.
    rewrite E in R. discriminate R.
  - apply Z.leb_le in H. apply Rounding.round_mono; try lia.
    apply Z.mul_le_mono_nonneg_r; [lia|]. apply Z.mul_le_mono_nonneg_r; lia.
Qed.

Lemma leb_refl_notNaN (x : number) :
  Number.isNaN x = false -> Number.leb x x = true.
Proof.
  destruct x as [|[|]|a]; intros H; try discriminate H; try reflexivity.
  unfold Number.leb. apply Z.leb_refl.
Qed.

Lemma position_mono (a b l h : Z) :
  a <= b ->
  Number.isNaN (position (Fin a) (Fin l) (Fin h)) = false ->
  Number.isNaN (position (Fin b) (Fin l) (Fin h)) = false ->
  Number.leb (position (Fin a) (Fin l) (Fin h)) (position (Fin b) (Fin l) (Fin h))
  = true.
Proof.
  intros Hab. unfold position.
  destruct (Number.gtb (Number.sub (Fin h) (Fin l)) epsilon) eqn:Hw.
  - destruct epsilon_pos as (e & Ee & He). rewrite Ee in Hw.
    pose proof (sub_mono_l a b l Hab) as Hx.
    destruct (Number.sub (Fin h) (Fin l)) as [|[|]|w] eqn:EW;
      unfold Number.gtb, Number.ltb in Hw; try discriminate Hw.
    + intros Ha Hb.
      destruct (Number.sub (Fin a) (Fin l)) as [| |x]; try discriminate Ha;
        destruct (Number.sub (Fin b) (Fin l)) as [| |y]; try discriminate Hb.
      reflexivity.
    + intros _ _. apply Z.ltb_lt in Hw. apply div_mono_Fin; [lia|exact Hx].
  - intros _ _. unfold Number.geb.
    change (Number.leb (Fin l) (Fin a)) with (l <=? a).
    change (Number.leb (Fin l) (Fin b)) with (l <=? b).
    assert (Hzh : Number.leb Number.zero half = true) by (vm_compute; reflexivity).
    assert (Hhh : Number.leb half half = true) by (vm_compute; reflexivity).
    destruct (Z.leb_spec l a), (Z.leb_spec l b);
      [exact Hhh|lia|exact Hzh|reflexivity].
Qed.

(** X10: for finite values and bounds, a larger raw value never lowers the
    normalized value of a higher-is-better metric and never raises that of a
    lower-is-better metric (as long as neither position is [NaN]). *)
Theorem normalize_monotone (a b l h : Z) :
  a <= b ->
  Number.isNaN (position (Fin a) (Fin l) (Fin h)) = false ->
  Number.isNaN (position (Fin b) (Fin l) (Fin h)) = false ->
  Number.leb (normalize (Fin a) (Fin l) (Fin h) true)
             (normalize (Fin b) (Fin l) (Fin h) true) = true
  /\ Number.leb (normalize (Fin b) (Fin l) (Fin h) false)
                (normalize (Fin a) (Fin l) (Fin h) false) = true.
Proof.
  intros Hab Ha Hb. rewrite !normalize_position. cbv zeta.
  pose proof (clamp_mono _ _ (position_mono a b l h Hab Ha Hb)) as Hc.
  split; [exact Hc|].
  destruct (inUnit_Fin _ (clamp_inUnit _ Ha)) as (x & Ex & Hx).
  destruct (inUnit_Fin _ (clamp_inUnit _ Hb)) as (y & Ey & Hy).
  rewrite Ex, Ey in Hc |- *. unfold Number.leb in Hc. apply Z.leb_le in Hc.
  rewrite one_eq. unfold Number.sub, Number.add. cbn [Number.neg].
  apply Rounding.round_mono; lia.
Qed.

Lemma normalize_monotone_witness :
  Number.leb (normalize (Fin 0) (Fin 0) (Fin Number.scale) true)
             (normalize (Fin Number.scale) (Fin 0) (Fin Number.scale) true) = true
  /\ Number.leb (normalize (Fin Number.scale) (Fin 0) (Fin Number.scale) false)
                (normalize (Fin 0) (Fin 0) (Fin Number.scale) false) = true.
Proof.
  refine (normalize_monotone 0 Number.scale 0 Number.scale _ _ _).
  - vm_compute. discriminate.
  - vm_compute. reflexivity.
  - vm_compute. reflexivity.
Defined.

(** * The scoring page ([pages/scoring/index.tsx]) *)

(** [handleWeightChange] (lines 35-40): the new weight object
    [{ ...prev, [db_column]: value }], by its own properties. *)
Definition handleWeightChange (prev : gmap string number) (db_column : string)
    (value : number) : gmap string number :=
  <[db_column := value]> prev.

(** [ws] lists the entries of the weight object [m], as [Object.entries]
    does, in some order. *)
Definition entriesOf (ws : list (string * number)) (m : gmap string number) : Prop :=
  List.NoDup (map fst ws) /\ forall k w, In (k, w) ws <-> m !! k = Some w.

Lemma activeWeight_entriesOf (ws : list (string * number)) (m : gmap string number)
    (k : string) :
  entriesOf ws m ->
  activeWeight ws k =
    match m !! k with
    | Some w => if Number.leb w Number.zero then None else Some w
    | None => None
    end.
Proof.
  intros [Hnd Hin].
  destruct (m !! k) as [w|] eqn:E.
  - apply Hin in E. destruct (Number.leb w Number.zero) eqn:Hw.
    + destruct (activeWeight ws k) as [w'|] eqn:E'; [|reflexivity].
      apply activeWeight_In in E'. destruct E' as [Hin' Hw'].
      rewrite (NoDup_keys_unique ws k w' w Hnd Hin' E) in Hw'. congruence.
    + apply activeWeight_NoDup; auto.
  - destruct (activeWeight ws k) as [w'|] eqn:E'; [|reflexivity].
    apply activeWeight_In in E'. destruct E' as [Hin' _].
    apply Hin in Hin'. congruence.
Qed.

(** X11: moving the slider of one metric changes only that metric's
    component in each company's breakdown: at a value [<= 0] the component
    disappears, at any other value it is present with the new weight, and
    the components of the other metrics stay as they were. *)
Theorem slider_changes_one_component
    (prev : gmap string number) (k : string) (v : number)
    (ws ws' : list (string * number))
    (fullRanges : gmap string (number * number))
    (metricConfigs : gmap string MetricConfig) (tier0 : string)
    (company : Company) :
  entriesOf ws prev -> entriesOf ws' (handleWeightChange prev k v) ->
  let before := breakdown (scoreCompany ws fullRanges metricConfigs tier0 company) in
  let after := breakdown (scoreCompany ws' fullRanges metricConfigs tier0 company) in
  (Number.leb v Number.zero = true -> after !! k = None)
  /\ (Number.leb v Number.zero = false ->
        exists c, after !! k = Some c /\ weight c = v)
  /\ (forall k', k' <> k -> after !! k' = before !! k').
Proof.
  intros Hws Hws' before after. subst before after.
  unfold handleWeightChange in Hws'.
  split; [|split].
  - intros Hv. rewrite scoreCompany_breakdown, (activeWeight_entriesOf _ _ _ Hws').
    rewrite lookup_insert_eq, Hv. reflexivity.
  - intros Hv. rewrite scoreCompany_breakdown, (activeWeight_entriesOf _ _ _ Hws').
    rewrite lookup_insert_eq, Hv. eexists. split; [reflexivity|].
    apply componentFor_weight.
  - intros k' Hk. rewrite !scoreCompany_breakdown.
    rewrite (activeWeight_entriesOf _ _ _ Hws'), (activeWeight_entriesOf _ _ _ Hws).
    rewrite lookup_insert_ne by congruence. reflexivity.
Qed.

Lemma slider_changes_one_component_witness :
  exists c,
    breakdown (scoreCompany [("revenue"%string, Number.of_Z 40)] Sample.ranges
                 Sample.configs "free" Sample.acme) !! "revenue" = Some c
    /\ weight c = Number.of_Z 40.
Proof.
  refine (proj1 (proj2 (slider_changes_one_component ∅ "revenue" (Number.of_Z 40)
                          [] [("revenue"%string, Number.of_Z 40)]
                          Sample.ranges Sample.configs "free" Sample.acme _ _)) _).
  - split; [constructor|]. intros k w. rewrite lookup_empty. cbn [In].
    split; [tauto|discriminate].
  - split; [repeat constructor; intros []|]. intros k w.
    unfold handleWeightChange. rewrite lookup_insert_Some, lookup_empty. cbn [In].
    split.
    + intros [E|[]]. apply pair_equal_spec in E. destruct E as [<- <-]. left. auto.
    + intros [[<- <-]|[_ H]]; [left; reflexivity|discriminate H].
  - vm_compute. reflexivity.
Defined.


(** * Extreme scores *)

Lemma rne_scale_invariant (P D c : Z) :
  0 < D -> 0 < c -> Number.rne (P * c) (D * c) = Number.rne P D.
Proof.
  intros HD Hc. apply Z.le_antisymm; apply Rounding.rne_mono; nia.
Qed.

Lemma round53_scale_invariant (P D c : Z) :
  0 < D -> 0 < c -> Number.round53 (P * c) (D * c) = Number.round53 P D.
Proof.
  intros HD Hc. unfold Number.round53, Number.shift.
  rewrite Z.div_mul_cancel_r by lia.
  set (k := Z.max 0 (Z.log2 (P / D) - 52)).
  assert (Hk : 0 < 2 ^ k) by (apply Z.pow_pos_nonneg; lia).
  replace (D * c * 2 ^ k) with (D * 2 ^ k * c) by ring.
  rewrite rne_scale_invariant by nia. reflexivity.
Qed.

(** The rounded quotient depends on the quotient only. *)
Lemma round_scale_invariant (P D c : Z) :
  0 < D -> 0 < c -> Number.round (P * c) (D * c) = Number.round P D.
Proof.
  intros HD Hc. unfold Number.round.
  rewrite Z.abs_mul, (Z.abs_eq c) by lia.
  rewrite round53_scale_invariant by lia.
  replace (P * c <? 0) with (P <? 0)
    by (destruct (Z.ltb_spec P 0), (Z.ltb_spec (P * c) 0); (reflexivity || nia)).
  rewrite Z.sgn_mul, (Z.sgn_pos c), Z.mul_1_r by lia. reflexivity.
Qed.

Lemma representable_round (b : Z) :
  Number.representable (Fin b) = true -> Number.round b 1 = Fin b.
Proof.
  unfold Number.representable. destruct (Number.round b 1) as [| |m]; intros H;
    try discriminate H. apply Z.eqb_eq in H. congruence.
Qed.

Lemma mul_one_l (b : Z) :
  Number.representable (Fin b) = true -> Number.mul one (Fin b) = Fin b.
Proof.
  intros H. rewrite one_eq. unfold Number.mul. pose proof scale_pos.
  replace (Number.scale * b) with (b * Number.scale) by ring.
  rewrite <- (Z.mul_1_l Number.scale) at 2.
  rewrite round_scale_invariant by lia. apply representable_round. exact H.
Qed.

Lemma div_self (b : Z) : 0 < b -> Number.div (Fin b) (Fin b) = one.
Proof.
  intros Hb. unfold Number.div. destruct (Z.eqb_spec b 0); [lia|].
  rewrite Z.sgn_pos, Z.abs_eq, Z.mul_1_l by lia.
  replace (b * Number.scale) with (Number.scale * b) by ring.
  rewrite <- (Z.mul_1_l b) at 2. rewrite round_scale_invariant by lia.
  unfold one, Number.of_Z. rewrite Z.mul_1_l. reflexivity.
Qed.

Lemma mul_one_thousand : Number.mul one thousand = thousand.
Proof. vm_compute. reflexivity. Qed.

Lemma Math_round_thousand : Number.Math_round thousand = thousand.
Proof. vm_compute. reflexivity. Qed.

Lemma componentFor_normalized_weight company fullRanges metricConfigs tier0 k w w' :
  normalizedValue (componentFor company fullRanges metricConfigs tier0 k w)
  = normalizedValue (componentFor company fullRanges metricConfigs tier0 k w').
Proof.
  unfold componentFor.
  destruct (metricConfigs !! k) as [cfg|]; [|reflexivity].
  destruct (accessGranted tier0 (tier cfg)); [|reflexivity]. cbn [negb].
  destruct (getNestedValue company (nested_path cfg)) as [[| |raw]|]; try reflexivity.
  destruct (fullRanges !! k) as [[[| |lo] [| |hi]]|]; reflexivity.
Qed.

(** X12: a company that reaches the normalized value [1] on every included
    metric scores exactly [1000] (finite binary64 weights, finite weight
    total). *)
Theorem best_on_every_metric_scores_1000
    (weights : list (string * number))
    (fullRanges : gmap string (number * number))
    (metricConfigs : gmap string MetricConfig) (tier0 : string)
    (company : Company) :
  let r := scoreCompany weights fullRanges metricConfigs tier0 company in
  (forall k w, In (k, w) weights ->
     Number.isFinite w = true /\ Number.representable w = true) ->
  Number.isFinite (weightTotal company fullRanges metricConfigs tier0 weights) = true ->
  (exists k c, breakdown r !! k = Some c /\ isIncluded c = true) ->
  (forall k c, breakdown r !! k = Some c -> isIncluded c = true ->
               normalizedValue c = Some one) ->
  score r = Some thousand.
Proof.
  intros r Hw Hfin Hex Hone. subst r.
  set (L := includedEntries company fullRanges metricConfigs tier0 weights).
  assert (HL : forall k w, In (k, w) L ->
            In (k, w) weights /\ Number.leb w Number.zero = false
            /\ gatesPassed company fullRanges metricConfigs tier0 k = true).
  { intros k w H. apply List.filter_In in H. destruct H as [Hin Hc].
    unfold counted in Hc. cbn [fst snd] in Hc. apply andb_true_iff in Hc.
    destruct Hc as [Hle Hg]. apply negb_true_iff in Hle. auto. }
  assert (Hmap : map (fun e => weightedScore
                     (componentFor company fullRanges metricConfigs tier0
                        (fst e) (snd e))) L = map snd L).
  { apply map_ext_in. intros [k w] Hin. cbn [fst snd].
    destruct (HL k w Hin) as (Hin' & Hle & Hg).
    destruct (componentFor_contribution company fullRanges metricConfigs tier0 k w Hg)
      as (n & En & -> & _).
    destruct (In_activeWeight weights k w Hin' Hle) as [w0 Hw0].
    assert (E1 : normalizedValue
                   (componentFor company fullRanges metricConfigs tier0 k w0)
                 = Some one).
    { apply (Hone k); [rewrite scoreCompany_breakdown, Hw0; reflexivity|].
      rewrite componentFor_included. exact Hg. }
    rewrite (componentFor_normalized_weight _ _ _ _ k w0 w), En in E1.
    assert (En' : n = one)
      by (revert E1; generalize one; intros o H; injection H; auto).
    subst n.
    destruct (kept_weight_positive w (proj1 (Hw k w Hin')) Hle) as (z & -> & _).
    apply mul_one_l. exact (proj2 (Hw k _ Hin')). }
  assert (HS : weightedTotal company fullRanges metricConfigs tier0 weights
               = weightTotal company fullRanges metricConfigs tier0 weights).
  { unfold weightedTotal, weightTotal. fold L. rewrite Hmap. reflexivity. }
  assert (Hne : L <> []).
  { intros E. destruct Hex as (k & c & Hc & Hi).
    pose proof (proj1 (includedEntries_breakdown company fullRanges metricConfigs
                         tier0 weights) E k c Hc) as Hf. congruence. }
  assert (Hpos : Number.gtb (weightTotal company fullRanges metricConfigs tier0 weights)
                   Number.zero = true).
  { unfold weightTotal. fold L. apply fold_add_pos_nonempty.
    - intros w H. apply in_map_iff in H. destruct H as ([k w'] & <- & Hin).
      cbn [snd]. destruct (HL k w' Hin) as (Hin' & Hle & _).
      apply kept_weight_positive; [apply (Hw k w' Hin')|exact Hle].
    - intros E. apply Hne. destruct L; [reflexivity|discriminate E]. }
  rewrite scoreCompany_score, Hpos, HS.
  destruct (weightTotal company fullRanges metricConfigs tier0 weights) as [| |b];
    try discriminate Hfin.
  unfold Number.gtb, Number.ltb, Number.zero in Hpos. apply Z.ltb_lt in Hpos.
  rewrite div_self by exact Hpos. rewrite mul_one_thousand, Math_round_thousand.
  reflexivity.
Qed.

Lemma best_on_every_metric_scores_1000_witness :
  score (scoreCompany [("revenue"%string, Number.of_Z 40)] Sample.ranges Sample.configs
           "free"
           (mkCompany 3 "Crest"
              (<["financials.revenue_value"%string := Number.of_Z 100]> ∅)))
  = Some thousand.
Proof.
  refine (best_on_every_metric_scores_1000 [("revenue"%string, Number.of_Z 40)]
            Sample.ranges Sample.configs "free" _ _ _ _ _).
  - intros k w [E|[]]. apply pair_equal_spec in E. destruct E as [<- <-].
    split; vm_compute; reflexivity.
  - vm_compute. reflexivity.
  - exists "revenue"%string. eexists. split; [vm_compute; reflexivity|reflexivity].
  - intros k c. rewrite scoreCompany_breakdown. cbn [activeWeight].
    destruct (bool_decide_reflect ("revenue"%string = k)) as [<-|Hne].
    + replace (Number.leb (Number.of_Z 40) Number.zero) with false
        by (vm_compute; reflexivity).
      cbn [andb negb fmap option_fmap option_map].
      intros Hc _. assert (Ec : c = componentFor
                 (mkCompany 3 "Crest"
                    (<["financials.revenue_value"%string := Number.of_Z 100]> ∅))
                 Sample.ranges Sample.configs "free" "revenue" (Number.of_Z 40))
        by congruence.
      rewrite Ec. vm_compute. reflexivity.
    + cbn [andb fmap option_fmap option_map]. intros H. discriminate H.
Defined.


(** * Pagination of the company table ([components/company-data-table.tsx]) *)

(** [Math.ceil]: the least integer that is not below the argument. *)
Definition Math_ceil (x : number) : number :=
  match x with
  | Fin n => Fin (- ((- n) / Number.scale) * Number.scale)
  | _ => x
  end.

(** The three numbers that [Pagination] shows (lines 110-112). *)
Record PageInfo : Type := mkPageInfo {
  totalPages : number;
  startItem : number;
  endItem : number
}.

Definition pagination (page pageSize totalCount : number) : PageInfo :=
  mkPageInfo
    (Math_ceil (Number.div totalCount pageSize))
    (Number.add (Number.mul (Number.sub page one) pageSize) one)
    (Number.min (Number.mul page pageSize) totalCount).

(** Arithmetic on integers below [2^53] is exact. *)
Lemma add_of_Z (a b : Z) :
  0 <= a < 2 ^ 53 -> 0 <= b < 2 ^ 53 -> a + b < 2 ^ 53 ->
  Number.add (Number.of_Z a) (Number.of_Z b) = Number.of_Z (a + b).
Proof.
  intros Ha Hb Hab. rewrite (of_Z_small a), (of_Z_small b) by lia.
  unfold Number.add, Number.of_Z. f_equal. ring.
Qed.

Lemma sub_of_Z (a b : Z) :
  0 <= b <= a -> a < 2 ^ 53 ->
  Number.sub (Number.of_Z a) (Number.of_Z b) = Number.of_Z (a - b).
Proof.
  intros Hb Ha. rewrite (of_Z_small a), (of_Z_small b) by lia.
  unfold Number.sub, Number.add, Number.of_Z. cbn [Number.neg]. f_equal. ring.
Qed.

Lemma mul_of_Z (a b : Z) :
  0 <= a < 2 ^ 53 -> 0 <= b < 2 ^ 53 ->
  Number.mul (Number.of_Z a) (Number.of_Z b) = Number.of_Z (a * b).
Proof.
  intros Ha Hb. rewrite (of_Z_small a), (of_Z_small b) by lia.
  unfold Number.mul, Number.of_Z. pose proof scale_pos as Hs.
  replace (a * Number.scale * (b * Number.scale))
    with (a * b * Number.scale * Number.scale) by ring.
  rewrite <- (Z.mul_1_l Number.scale) at 3.
  apply round_scale_invariant; lia.
Qed.

Lemma div_of_Z (n s : Z) :
  0 <= n < 2 ^ 53 -> 0 < s < 2 ^ 53 ->
  Number.div (Number.of_Z n) (Number.of_Z s) = Number.round (n * Number.scale) s.
Proof.
  intros Hn Hs. rewrite (of_Z_small n), (of_Z_small s) by lia.
  pose proof scale_pos as Hsc. unfold Number.div.
  destruct (Z.eqb_spec (s * Number.scale) 0) as [E|_]; [nia|].
  rewrite Z.sgn_pos, Z.abs_eq, Z.mul_1_l by nia.
  apply round_scale_invariant; lia.
Qed.

Lemma min_of_Z (a b : Z) :
  0 <= a < 2 ^ 53 -> 0 <= b < 2 ^ 53 ->
  Number.min (Number.of_Z a) (Number.of_Z b) = Number.of_Z (Z.min a b).
Proof.
  intros Ha Hb. pose proof scale_pos as Hs.
  assert (Hm : 0 <= Z.min a b < 2 ^ 53) by lia.
  rewrite (of_Z_small a), (of_Z_small b), (of_Z_small (Z.min a b)) by lia.
  unfold Number.min, Number.leb.
  destruct (Z.leb_spec (a * Number.scale) (b * Number.scale)); f_equal; f_equal; nia.
Qed.

(** The quotient of two integers below [2^26], rounded up, is the integer
    quotient rounded up: the division does not round a quotient that lies
    above an integer down to it. *)
Lemma ceil_div_of_Z (n s : Z) :
  0 <= n < 2 ^ 26 -> 0 < s < 2 ^ 26 ->
  Math_ceil (Number.div (Number.of_Z n) (Number.of_Z s))
  = Number.of_Z ((n + s - 1) / s).
Proof.
  intros Hn Hs. pose proof scale_pos as Hsc.
  assert (H26 : 2 ^ 26 < 2 ^ 53) by (apply Z.pow_lt_mono_r; lia).
  rewrite div_of_Z by lia.
  pose proof (Z.div_mod n s ltac:(lia)) as Hdm.
  pose proof (Z.mod_pos_bound n s ltac:(lia)) as Hr.
  set (q := n / s) in *. set (r := n mod s) in *.
  assert (Hq : 0 <= q <= n).
  { split; [apply Z.div_pos; lia|]. subst q. apply Z.div_le_upper_bound; nia. }
  assert (Hexact : forall z, 0 <= z < 2 ^ 53 ->
            Number.round (z * Number.scale * s) s = Fin (z * Number.scale)).
  { intros z Hz. rewrite <- (Z.mul_1_l s) at 2.
    rewrite round_scale_invariant by lia.
    fold (Number.of_Z z). apply of_Z_small. exact Hz. }
  destruct (Z.eq_dec r 0) as [Hr0|Hr0].
  - assert (En : n = q * s) by lia.
    assert (Eq : (n + s - 1) / s = q).
    { symmetry. apply Z.div_unique with (r := s - 1); lia. }
    rewrite Eq, (of_Z_small q) by lia.
    replace (n * Number.scale) with (q * Number.scale * s) by (rewrite En; ring).
    rewrite Hexact by lia. unfold Math_ceil. f_equal.
    rewrite <- Z.mul_opp_l, Z.div_mul by lia. ring.
  - assert (Eq : (n + s - 1) / s = q + 1).
    { symmetry. apply Z.div_unique with (r := r - 1); lia. }
    rewrite Eq, (of_Z_small (q + 1)) by lia.
    (* a number strictly between [q] and the quotient *)
    set (y := (q * 2 ^ 26 + 1) * 2 ^ 1048).
    assert (Hp26 : 0 < 2 ^ 26) by (apply Z.pow_pos_nonneg; lia).
    assert (Hsc' : Number.scale = 2 ^ 26 * 2 ^ 1048).
    { unfold Number.scale. rewrite <- Z.pow_add_r by lia. reflexivity. }
    assert (Hp1048 : 0 < 2 ^ 1048) by (apply Z.pow_pos_nonneg; lia).
    assert (Hy : Number.round y 1 = Fin y).
    { assert (Hm : 0 <= q * 2 ^ 26 + 1 < 2 ^ 53).
      { split; [nia|]. replace (2 ^ 53) with (2 ^ 26 * 2 ^ 27) by
          (rewrite <- Z.pow_add_r by lia; reflexivity).
        assert (2 ^ 26 + 1 <= 2 ^ 27).
        { replace (2 ^ 27) with (2 * 2 ^ 26) by
            (change 27 with (1 + 26); rewrite Z.pow_add_r by lia; reflexivity). lia. }
        nia. }
      rewrite Rounding.round_nonneg_form by (subst y; nia).
      pose proof (Rounding.round53_exact (q * 2 ^ 26 + 1) 1048 1 Hm ltac:(lia)
                    ltac:(lia)) as E.
      rewrite Z.mul_1_r in E. fold y in E. rewrite E.
      assert (Hlt : y < Number.limit).
      { subst y. unfold Number.limit.
        replace (2 ^ 2098) with (2 ^ 53 * 2 ^ 2045) by
          (rewrite <- Z.pow_add_r by lia; reflexivity).
        assert (2 ^ 1048 <= 2 ^ 2045) by (apply Z.pow_le_mono_r; lia).
        assert (0 < 2 ^ 53) by (apply Z.pow_pos_nonneg; lia). nia. }
      destruct (Z.leb_spec Number.limit y); [lia|reflexivity]. }
    assert (Hlo : Number.leb (Fin y) (Number.round (n * Number.scale) s) = true).
    { rewrite <- Hy. apply Rounding.round_mono; [lia|lia|].
      subst y. rewrite Hsc', Hdm. nia. }
    assert (Hhi : Number.leb (Number.round (n * Number.scale) s)
                    (Fin ((q + 1) * Number.scale)) = true).
    { rewrite <- (Hexact (q + 1)) by lia. apply Rounding.round_mono; [lia|lia|].
      rewrite Hdm. nia. }
    destruct (Number.round (n * Number.scale) s) as [|[|]|x]; try discriminate Hlo;
      try discriminate Hhi.
    unfold Number.leb in Hlo, Hhi. apply Z.leb_le in Hlo, Hhi.
    unfold Math_ceil. f_equal.
    assert (Hx : q * Number.scale < x) by (subst y; rewrite Hsc'; nia).
    assert (E : (- x) / Number.scale = - (q + 1)).
    { symmetry. apply Z.div_unique with (r := (q + 1) * Number.scale - x); lia. }
    rewrite E. ring.
Qed.

(** X13: for an integer page size and item count below [2^26], the number
    of pages is the item count divided by the page size, rounded up, and on
    each page [1 .. totalPages] the items shown run from [(page-1) * size + 1]
    to [min (page * size) total]: a range that is not empty, holds at most
    [size] items, is full on every page but the last and ends at the last
    item on the last page. *)
Theorem pagination_ranges (page pageSize totalCount : Z) :
  0 < pageSize < 2 ^ 26 -> 0 <= totalCount < 2 ^ 26 ->
  1 <= page -> (page - 1) * pageSize < totalCount ->
  let info := pagination (Number.of_Z page) (Number.of_Z pageSize)
                (Number.of_Z totalCount) in
  let pages := (totalCount + pageSize - 1) / pageSize in
  let first := (page - 1) * pageSize + 1 in
  let last := Z.min (page * pageSize) totalCount in
  totalPages info = Number.of_Z pages
  /\ startItem info = Number.of_Z first
  /\ endItem info = Number.of_Z last
  /\ page <= pages
  /\ first <= last <= totalCount
  /\ last - first + 1 <= pageSize
  /\ (page < pages -> last = page * pageSize)
  /\ (page = pages -> last = totalCount).
Proof.
  intros Hs Hn Hp Hlt info pages first last. subst info pages first last.
  assert (H26 : 2 ^ 26 * 2 ^ 26 < 2 ^ 53).
  { rewrite <- Z.pow_add_r by lia. apply Z.pow_lt_mono_r; lia. }
  assert (Hp26 : 0 < 2 ^ 26) by (apply Z.pow_pos_nonneg; lia).
  assert (Hpage : page <= totalCount) by nia.
  assert (Hpages : page <= (totalCount + pageSize - 1) / pageSize).
  { apply Z.div_le_lower_bound; nia. }
  assert (Hup : (totalCount + pageSize - 1) / pageSize * pageSize
                <= totalCount + pageSize - 1).
  { rewrite Z.mul_comm. apply Z.mul_div_le. lia. }
  assert (Hdown : totalCount
                  <= (totalCount + pageSize - 1) / pageSize * pageSize).
  { pose proof (Z.mul_succ_div_gt (totalCount + pageSize - 1) pageSize ltac:(lia)).
    nia. }
  unfold pagination. cbn [totalPages startItem endItem].
  split; [apply ceil_div_of_Z; lia|].
  split.
  { unfold one. rewrite sub_of_Z by nia. rewrite mul_of_Z by nia.
    rewrite add_of_Z by nia. reflexivity. }
  split.
  { rewrite mul_of_Z by nia. apply min_of_Z; nia. }
  split; [exact Hpages|].
  split; [lia|]. split; [lia|]. split.
  - intros Hlast. apply Z.min_l. nia.
  - intros ->. apply Z.min_r. nia.
Qed.

Lemma pagination_ranges_witness :
  totalPages (pagination (Number.of_Z 3) (Number.of_Z 25) (Number.of_Z 60))
  = Number.of_Z 3
  /\ startItem (pagination (Number.of_Z 3) (Number.of_Z 25) (Number.of_Z 60))
     = Number.of_Z 51
  /\ endItem (pagination (Number.of_Z 3) (Number.of_Z 25) (Number.of_Z 60))
     = Number.of_Z 60.
Proof.
  assert (H26 : 2 ^ 6 < 2 ^ 26) by (apply Z.pow_lt_mono_r; lia).
  change (2 ^ 6) with 64 in H26.
  destruct (pagination_ranges 3 25 60 ltac:(lia) ltac:(lia) ltac:(lia) ltac:(lia))
    as (H1 & H2 & H3 & _).
  repeat split; assumption.
Defined.
